(** * check-giscus.js: the Giscus diagnostic script

    A shallow embedding of [check-giscus.js] and the properties of one run
    of it.  The script drives a browser through Playwright: it opens a page,
    registers four listeners that collect the page's requests, responses,
    console messages and errors, navigates to a post, waits, looks for the
    Giscus elements, prints what it found, writes a JSON report and takes a
    screenshot.

    Everything outside the script (the browser, the page, the clock, the file
    system, and the events the page emits while the script is suspended at an
    [await]) is a [world]: one field per operation of the script, giving the
    events dispatched during it and the way it settles.  The script is a
    computation in a state-and-exception monad over the four collected lists
    and the trace of what the run did. *)

From Stdlib Require Import List String Ascii ZArith Lia Bool Arith.
Import ListNotations.
Open Scope string_scope.
Open Scope list_scope.

(* ------------------------------------------------------------------ *)
(** ** JavaScript values the script handles *)

(** A thrown value, by its message. *)
Definition exn := string.

Inductive result (A : Type) : Type :=
| Ok (a : A)
| Throw (e : exn).
Arguments Ok {A} a.
Arguments Throw {A} e.

(** [s.includes(sub)]: [sub] occurs in [s]. *)
Fixpoint includes (s sub : string) : bool :=
  if String.prefix sub s then true
  else match s with
       | EmptyString => false
       | String _ s' => includes s' sub
       end.

(** Truthiness of a value that is a string, [null] or [undefined]: the
    empty string is falsy. *)
Definition truthy (v : option string) : bool :=
  match v with
  | Some (String _ _) => true
  | _ => false
  end.

(** A JavaScript string is a sequence of UTF-16 code units.  The model holds
    it as its UTF-8 text, which is what a string literal of this file is: a
    character of the basic plane, one code unit, is a sequence of one to
    three bytes; a supplementary character, a surrogate pair of two code
    units, is a sequence of four bytes; a surrogate without its pair is the
    three bytes of its own code.  [length] and [substring] count code
    units, as [String.prototype.length] and [substring] do. *)
Module Js.

Definition byte (c : ascii) : nat := nat_of_ascii c.

(** A byte [10xxxxxx]: it continues the character of the bytes before it. *)
Definition continuation (c : ascii) : bool :=
  (128 <=? byte c)%nat && (byte c <? 192)%nat.

(** A byte [11110xxx]: it starts a supplementary character. *)
Definition supplementary (c : ascii) : bool := (240 <=? byte c)%nat.

(** The code units of the character that a byte starts. *)
Definition units (c : ascii) : nat :=
  if continuation c then 0 else if supplementary c then 2 else 1.

(** [s.length]. *)
Fixpoint length (s : string) : nat :=
  match s with
  | EmptyString => 0
  | String c s' => units c + length s'
  end.


Definition byte_at (i : nat) (s : string) : nat :=
  match String.get i s with
  | Some c => byte c
  | None => 0
  end.

(** The first code unit of the supplementary character that starts with
    the byte [c] and goes on with [s]: its high surrogate, [0xD800 + x]
    where [x] is the ten high bits of the code point less [0x10000]. *)
Definition high_surrogate (c : ascii) (s : string) : string :=
  let x :=
    ((byte c mod 8) * 256 + (byte_at 0 s mod 64) * 4 + (byte_at 1 s mod 64) / 16
     + 960) mod 1024 in
  String (ascii_of_nat 237)
    (String (ascii_of_nat (160 + x / 64))
       (String (ascii_of_nat (128 + x mod 64)) EmptyString)).

(** [s.substring(0, stop)]: the first [stop] code units of [s]; when the
    cut falls inside a surrogate pair, the high surrogate is kept alone. *)
Fixpoint substring_0 (stop : nat) (s : string) : string :=
  match s with
  | EmptyString => EmptyString
  | String c s' =>
      if continuation c then String c (substring_0 stop s')
      else
        match stop with
        | 0 => EmptyString
        | 1 =>
            if supplementary c then high_surrogate c s'
            else String c (substring_0 0 s')
        | S (S stop') =>
            if supplementary c then String c (substring_0 stop' s')
            else String c (substring_0 (S stop') s')
        end
  end.

(** Every character of [s] is an ASCII character. *)
Fixpoint ascii_only (s : string) : bool :=
  match s with
  | EmptyString => true
  | String c s' => (byte c <? 128)%nat && ascii_only s'
  end.

Definition upper (c : ascii) : ascii :=
  if (97 <=? byte c)%nat && (byte c <=? 122)%nat
  then ascii_of_nat (byte c - 32)
  else c.

(** [s.toUpperCase()] for an ASCII string, as the type names of a console
    message are ("log", "error", "warning", ...): the letters a to z become
    A to Z, every other character stays.  The properties that depend on
    the text of an upper-cased string are stated for [ascii_only] strings. *)
Fixpoint toUpperCase (s : string) : string :=
  match s with
  | EmptyString => EmptyString
  | String c s' => String (upper c) (toUpperCase s')
  end.

End Js.

(** The object pushed by the 'request' listener (lines 11-16). *)
Module Request.
Record t := mk
  { url : string;
    method : string;
    headers : list (string * string);
    postData : option string }.
End Request.

(** The object pushed by the 'response' listener (lines 23-27). *)
Module Response.
Record t := mk
  { url : string;
    status : Z;
    statusText : string }.
End Response.

(** [logEntry] of the 'console' listener (lines 34-38); [location] is
    Playwright's url, line and column of the message. *)
Module ConsoleLog.
Record location := mkLocation
  { locUrl : string;
    lineNumber : Z;
    columnNumber : Z }.
Record t := mk
  { type : string;
    text : string;
    location_ : location }.
End ConsoleLog.

(** The object pushed by the 'pageerror' listener (lines 46-49); [stack]
    may be undefined. *)
Module PageError.
Record t := mk
  { message : string;
    stack : option string }.
End PageError.

(** The [report] object of lines 178-187. *)
Module Report.
Record t := mk
  { timestamp : string;
    url : string;
    giscusScript : string;
    giscusIframe : string;
    requests : list Request.t;
    responses : list Response.t;
    consoleLogs : list ConsoleLog.t;
    pageErrors : list PageError.t }.
End Report.

(** An element handle returned by [page.$]. *)
Inductive elementHandle : Type :=
| ElementHandle (id : nat).

(** The events a page emits, by the name the listeners are registered under. *)
Inductive event : Type :=
| EvRequest (request : Request.t)
| EvResponse (response : Response.t)
| EvConsole (msg : ConsoleLog.t)
| EvPageError (error : PageError.t).

(* ------------------------------------------------------------------ *)
(** ** What a run does: calls, console lines, files *)

(** The three variables that hold element handles. *)
Inductive element : Type :=
| ElScript      (* giscusScript, line 64 *)
| ElIframe      (* giscusIframe, line 95 *)
| ElContainer.  (* giscusContainer, line 142 *)

(** The operations the script invokes on the browser, the page, its element
    handles and the file system, with the arguments it passes. *)
Inductive call : Type :=
| Launch (headless : bool)
| NewContext
| NewPage
| Goto (url : string) (waitUntil : string) (timeout : Z)
| WaitForTimeout (ms : Z)
| Query (selector : string)
| GetAttribute (el : element) (name : string)
| Evaluate (el : element)
| InnerHTML (el : element)
| WriteFileSync (path : string) (data : Report.t)
| Screenshot (path : string) (fullPage : bool)
| Close.

(** One constructor per [console.log] / [console.error] call site; the
    arguments are the values interpolated into the message. *)
Inductive line : Type :=
| LRequest (method url : string)                 (* line 17 *)
| LResponse (status : Z) (url : string)          (* line 28 *)
| LConsole (type text : string)                  (* line 40 *)
| LPageError (message : string)                  (* line 50 *)
| LStart                                         (* line 54 *)
| LCheckScript                                   (* line 63 *)
| LScriptFound (scriptSrc : option string)       (* line 67 *)
| LAttributesHeader                              (* line 86 *)
| LAttribute (key : string) (value : option string) (* line 88 *)
| LScriptMissing                                 (* line 91 *)
| LCheckIframe                                   (* line 94 *)
| LIframeFound                                   (* line 98 *)
| LIframeSrc (iframeSrc : option string)         (* line 99 *)
| LIframeSrcLength (n : nat)                     (* line 100 *)
| LIframeSrcTooLong (n : nat)                    (* line 103 *)
| LUriTooLongHint                                (* line 104 *)
| LIframeMissing                                 (* line 107 *)
| LNetworkRequests                               (* line 110 *)
| LRequestHeader (n : nat)                       (* line 114 *)
| LRequestMethod (method : string)               (* line 115 *)
| LRequestUrl (url : string)                     (* line 116 *)
| LRequestUrlLength (n : nat)                    (* line 117 *)
| LRequestUrlTooLong                             (* line 119 *)
| LNoRequests                                    (* line 123 *)
| LNetworkResponses                              (* line 126 *)
| LResponseHeader (n : nat)                      (* line 130 *)
| LResponseStatus (status : Z) (statusText : string) (* line 131 *)
| LResponseUrl (url : string)                    (* line 132 *)
| LResponseFailed                                (* line 134 *)
| LNoResponses                                   (* line 138 *)
| LCheckContainer                                (* line 141 *)
| LContainerHTML (html : string)                 (* line 145 *)
| LContainerHTMLTotal (n : nat)                  (* line 147 *)
| LContainerMissing                              (* line 150 *)
| LConsoleErrors                                 (* line 153 *)
| LErrorHeader (n : nat)                         (* lines 157, 167 *)
| LErrorText (text : string)                     (* lines 158, 168 *)
| LNoConsoleErrors                               (* line 161 *)
| LPageErrors                                    (* line 164 *)
| LErrorStack (stack : string)                   (* line 170 *)
| LNoPageErrors                                  (* line 174 *)
| LReportSaved                                   (* line 194 *)
| LScreenshotSaved                               (* line 201 *)
| LCaught (error : exn).                         (* line 204 *)

Inductive stream : Type :=
| ConsoleLogStream     (* console.log *)
| ConsoleErrorStream.  (* console.error *)

Inductive file : Type :=
| JsonFile (content : Report.t)  (* JSON.stringify(report, null, 2) *)
| PngFile.

(** The trace of a run, oldest first. *)
Inductive effect : Type :=
| Call (c : call)                    (* the script invokes an operation *)
| Recv (ev : event)                  (* the page emits an event *)
| Print (s : stream) (l : line)      (* a line on the console *)
| Created (path : string) (f : file). (* a file has been written *)

(* ------------------------------------------------------------------ *)
(** ** The state of the script and its monad *)

(** The four arrays declared at lines 9, 21, 32 and 44, and the trace. *)
Record state : Type := mkState
  { requests : list Request.t;
    responses : list Response.t;
    consoleLogs : list ConsoleLog.t;
    pageErrors : list PageError.t;
    trace : list effect }.

Definition initial : state := mkState [] [] [] [] [].

Definition M (A : Type) : Type := state -> result A * state.

Definition ret {A} (a : A) : M A := fun st => (Ok a, st).

Definition throw {A} (e : exn) : M A := fun st => (Throw e, st).

Definition bind {A B} (m : M A) (k : A -> M B) : M B :=
  fun st =>
    match m st with
    | (Ok a, st') => k a st'
    | (Throw e, st') => (Throw e, st')
    end.

Notation "x <- m ;; k" := (bind m (fun x => k))
  (at level 61, m at next level, right associativity).
Notation "m ;; k" := (bind m (fun _ => k))
  (at level 61, right associativity).

(** [try { body } catch (error) { handler } finally { finalizer }]. *)
Definition try_catch_finally {A} (body : M A) (handler : exn -> M A)
    (finalizer : M unit) : M A :=
  fun st =>
    let (r, st1) := body st in
    let (r', st2) :=
      match r with
      | Ok a => (Ok a, st1)
      | Throw e => handler e st1
      end in
    let (f, st3) := finalizer st2 in
    match f with
    | Ok _ => (r', st3)
    | Throw e => (Throw e, st3)
    end.

Definition emit (e : effect) : M unit :=
  fun st =>
    (Ok tt, mkState (requests st) (responses st) (consoleLogs st)
                    (pageErrors st) (trace st ++ [e])).

Definition console_log (l : line) : M unit := emit (Print ConsoleLogStream l).
Definition console_error (l : line) : M unit := emit (Print ConsoleErrorStream l).

Fixpoint console_logs (ls : list line) : M unit :=
  match ls with
  | [] => ret tt
  | l :: ls' => console_log l ;; console_logs ls'
  end.

(** [xs.push(x)] on each of the four arrays. *)
Definition push_request (x : Request.t) : M unit :=
  fun st =>
    (Ok tt, mkState (requests st ++ [x]) (responses st) (consoleLogs st)
                    (pageErrors st) (trace st)).

Definition push_response (x : Response.t) : M unit :=
  fun st =>
    (Ok tt, mkState (requests st) (responses st ++ [x]) (consoleLogs st)
                    (pageErrors st) (trace st)).

Definition push_consoleLog (x : ConsoleLog.t) : M unit :=
  fun st =>
    (Ok tt, mkState (requests st) (responses st) (consoleLogs st ++ [x])
                    (pageErrors st) (trace st)).

Definition push_pageError (x : PageError.t) : M unit :=
  fun st =>
    (Ok tt, mkState (requests st) (responses st) (consoleLogs st)
                    (pageErrors st ++ [x]) (trace st)).

(** Reading the arrays. *)
Definition get {A} (f : state -> A) : M A := fun st => (Ok (f st), st).

(* ------------------------------------------------------------------ *)
(** ** The listeners (lines 8-51) *)

Definition on_request (request : Request.t) : M unit :=
  push_request
    {| Request.url := Request.url request;
       Request.method := Request.method request;
       Request.headers := Request.headers request;
       Request.postData := Request.postData request |} ;;
  console_log (LRequest (Request.method request) (Request.url request)).

Definition on_response (response : Response.t) : M unit :=
  push_response
    {| Response.url := Response.url response;
       Response.status := Response.status response;
       Response.statusText := Response.statusText response |} ;;
  console_log (LResponse (Response.status response) (Response.url response)).

Definition on_console (msg : ConsoleLog.t) : M unit :=
  let logEntry :=
    {| ConsoleLog.type := ConsoleLog.type msg;
       ConsoleLog.text := ConsoleLog.text msg;
       ConsoleLog.location_ := ConsoleLog.location_ msg |} in
  push_consoleLog logEntry ;;
  console_log
    (LConsole (Js.toUpperCase (ConsoleLog.type msg)) (ConsoleLog.text msg)).

Definition on_pageerror (error : PageError.t) : M unit :=
  push_pageError
    {| PageError.message := PageError.message error;
       PageError.stack := PageError.stack error |} ;;
  console_error (LPageError (PageError.message error)).

(** The page emits [ev]: the listener registered for it runs. *)
Definition dispatch (ev : event) : M unit :=
  emit (Recv ev) ;;
  match ev with
  | EvRequest request => on_request request
  | EvResponse response => on_response response
  | EvConsole msg => on_console msg
  | EvPageError error => on_pageerror error
  end.

Fixpoint dispatch_all (evs : list event) : M unit :=
  match evs with
  | [] => ret tt
  | ev :: evs' => dispatch ev ;; dispatch_all evs'
  end.

(* ------------------------------------------------------------------ *)
(** ** The world of a run *)

(** An awaited operation: the events the page emits while the script is
    suspended on it, and the way its promise settles. *)
Record awaited (A : Type) : Type := mkAwaited
  { during : list event;
    settled : result A }.
Arguments mkAwaited {A} during settled.
Arguments during {A} a.
Arguments settled {A} a.

Definition settle {A} (r : result A) : M A :=
  match r with
  | Ok a => ret a
  | Throw e => throw e
  end.

(** An operation during which no listener runs: a synchronous call, or an
    awaited one made before the listeners are registered. *)
Definition invoke {A} (c : call) (r : result A) : M A :=
  emit (Call c) ;; settle r.

(** [await c]: the call is made, the events emitted meanwhile reach the
    listeners, then the script resumes with the value or the exception. *)
Definition await {A} (c : call) (a : awaited A) : M A :=
  emit (Call c) ;; dispatch_all (during a) ;; settle (settled a).

Record world : Type := mkWorld
  { w_argv : list string;               (* process.argv, never read *)
    w_launch : result unit;             (* line 4 *)
    w_newContext : result unit;         (* line 5 *)
    w_newPage : result unit;            (* line 6 *)
    w_goto : awaited unit;              (* line 55 *)
    w_waitForTimeout : awaited unit;    (* line 61 *)
    w_queryScript : awaited (option elementHandle);    (* line 64 *)
    w_scriptSrc : awaited (option string);             (* line 66 *)
    w_scriptAttribute : awaited (string -> option string); (* line 69 *)
    w_queryIframe : awaited (option elementHandle);    (* line 95 *)
    w_iframeSrc : awaited (option string);             (* line 97 *)
    w_queryContainer : awaited (option elementHandle); (* line 142 *)
    w_innerHTML : awaited string;       (* line 144 *)
    w_now : string;                     (* line 179 *)
    w_writeFileSync : result unit;      (* line 190 *)
    w_screenshot : awaited unit;        (* line 197 *)
    w_close : awaited unit }.           (* line 206 *)

(* ------------------------------------------------------------------ *)
(** ** The script *)

Definition dquote : string := String (ascii_of_nat 34) EmptyString.

(** The constants of the script. *)
Definition target_url : string := "http://localhost:1313/posts/7/".
Definition script_selector : string :=
  ("script[src*=" ++ dquote ++ "giscus" ++ dquote ++ "]")%string.
Definition iframe_selector : string := "iframe.giscus-frame".
Definition container_selector : string := ".giscus".
Definition report_path : string :=
  "/Users/nio/ddnio.github.io/giscus-diagnostic-report.json".
Definition screenshot_path : string :=
  "/Users/nio/ddnio.github.io/giscus-screenshot.png".

(** The keys of the object built inside [evaluate] (lines 71-82), in
    insertion order, which is the order of [Object.entries]. *)
Definition attribute_keys : list string :=
  [ "data-repo"; "data-repo-id"; "data-category"; "data-category-id";
    "data-mapping"; "data-strict"; "data-reactions-enabled";
    "data-emit-metadata"; "data-input-position"; "data-theme"; "data-lang";
    "crossorigin" ].

(** [xs.forEach((x, idx) => f x idx)]. *)
Fixpoint forEach_from {A} (f : A -> nat -> M unit) (idx : nat) (xs : list A)
    : M unit :=
  match xs with
  | [] => ret tt
  | x :: xs' => f x idx ;; forEach_from f (S idx) xs'
  end.

Definition forEach {A} (xs : list A) (f : A -> nat -> M unit) : M unit :=
  forEach_from f 0 xs.

(** [iframeSrc.length], read only where [iframeSrc] is truthy. *)
Definition length_of (v : option string) : nat :=
  match v with
  | Some s => Js.length s
  | None => 0
  end.

(** Lines 63-92. *)
Definition check_script (w : world) : M (option elementHandle) :=
  console_log LCheckScript ;;
  giscusScript <- await (Query script_selector) (w_queryScript w) ;;
  match giscusScript with
  | Some _ =>
      scriptSrc <- await (GetAttribute ElScript "src") (w_scriptSrc w) ;;
      console_log (LScriptFound scriptSrc) ;;
      getAttribute <- await (Evaluate ElScript) (w_scriptAttribute w) ;;
      let attributes := map (fun key => (key, getAttribute key)) attribute_keys in
      console_log LAttributesHeader ;;
      console_logs (map (fun kv => LAttribute (fst kv) (snd kv)) attributes)
  | None => console_log LScriptMissing
  end ;;
  ret giscusScript.

(** Lines 94-108. *)
Definition check_iframe (w : world) : M (option elementHandle) :=
  console_log LCheckIframe ;;
  giscusIframe <- await (Query iframe_selector) (w_queryIframe w) ;;
  match giscusIframe with
  | Some _ =>
      iframeSrc <- await (GetAttribute ElIframe "src") (w_iframeSrc w) ;;
      console_log LIframeFound ;;
      console_log (LIframeSrc iframeSrc) ;;
      console_log
        (LIframeSrcLength (if truthy iframeSrc then length_of iframeSrc else 0)) ;;
      if truthy iframeSrc && (2000 <? length_of iframeSrc)%nat then
        console_log (LIframeSrcTooLong (length_of iframeSrc)) ;;
        console_log LUriTooLongHint
      else ret tt
  | None => console_log LIframeMissing
  end ;;
  ret giscusIframe.

(** The callback of [giscusRequests.forEach] (lines 113-121). *)
Definition print_request (req : Request.t) (idx : nat) : M unit :=
  console_log (LRequestHeader (idx + 1)) ;;
  console_log (LRequestMethod (Request.method req)) ;;
  console_log (LRequestUrl (Request.url req)) ;;
  console_log (LRequestUrlLength (Js.length (Request.url req))) ;;
  if (2000 <? Js.length (Request.url req))%nat then
    console_log LRequestUrlTooLong
  else ret tt.

(** Lines 112-124. *)
Definition print_requests (giscusRequests : list Request.t) : M unit :=
  if (0 <? List.length giscusRequests)%nat then
    forEach giscusRequests print_request
  else console_log LNoRequests.

(** Lines 110-124. *)
Definition summarize_requests : M (list Request.t) :=
  console_log LNetworkRequests ;;
  requests <- get requests ;;
  let giscusRequests :=
    filter (fun r => includes (Request.url r) "giscus") requests in
  print_requests giscusRequests ;;
  ret giscusRequests.

(** The callback of [giscusResponses.forEach] (lines 129-136). *)
Definition print_response (res : Response.t) (idx : nat) : M unit :=
  console_log (LResponseHeader (idx + 1)) ;;
  console_log (LResponseStatus (Response.status res) (Response.statusText res)) ;;
  console_log (LResponseUrl (Response.url res)) ;;
  if (400 <=? Response.status res)%Z then
    console_log LResponseFailed
  else ret tt.

(** Lines 128-139. *)
Definition print_responses (giscusResponses : list Response.t) : M unit :=
  if (0 <? List.length giscusResponses)%nat then
    forEach giscusResponses print_response
  else console_log LNoResponses.

(** Lines 126-139. *)
Definition summarize_responses : M (list Response.t) :=
  console_log LNetworkResponses ;;
  responses <- get responses ;;
  let giscusResponses :=
    filter (fun r => includes (Response.url r) "giscus") responses in
  print_responses giscusResponses ;;
  ret giscusResponses.

(** Lines 141-151. *)
Definition check_container (w : world) : M unit :=
  console_log LCheckContainer ;;
  giscusContainer <- await (Query container_selector) (w_queryContainer w) ;;
  match giscusContainer with
  | Some _ =>
      giscusHTML <- await (InnerHTML ElContainer) (w_innerHTML w) ;;
      console_log (LContainerHTML (Js.substring_0 1000 giscusHTML)) ;;
      if (1000 <? Js.length giscusHTML)%nat then
        console_log (LContainerHTMLTotal (Js.length giscusHTML))
      else ret tt
  | None => console_log LContainerMissing
  end.

(** Lines 153-162. *)
Definition summarize_console_errors : M unit :=
  console_log LConsoleErrors ;;
  consoleLogs <- get consoleLogs ;;
  let errors :=
    filter (fun log => String.eqb (ConsoleLog.type log) "error") consoleLogs in
  if (0 <? List.length errors)%nat then
    forEach errors (fun err idx =>
      console_log (LErrorHeader (idx + 1)) ;;
      console_log (LErrorText (ConsoleLog.text err)))
  else console_log LNoConsoleErrors.

(** Lines 164-175. *)
Definition summarize_page_errors : M unit :=
  console_log LPageErrors ;;
  pageErrors <- get pageErrors ;;
  if (0 <? List.length pageErrors)%nat then
    forEach pageErrors (fun err idx =>
      console_log (LErrorHeader (idx + 1)) ;;
      console_log (LErrorText (PageError.message err)) ;;
      match PageError.stack err with
      | Some (String c s) => console_log (LErrorStack (String c s))
      | _ => ret tt
      end)
  else console_log LNoPageErrors.

(** What the first part of the [try] block hands to the second. *)
Record findings : Type := mkFindings
  { giscusScript : option elementHandle;
    giscusIframe : option elementHandle;
    giscusRequests : list Request.t;
    giscusResponses : list Response.t }.

(** Lines 63-175: look at the page and print. *)
Definition inspect (w : world) : M findings :=
  giscusScript <- check_script w ;;
  giscusIframe <- check_iframe w ;;
  giscusRequests <- summarize_requests ;;
  giscusResponses <- summarize_responses ;;
  check_container w ;;
  summarize_console_errors ;;
  summarize_page_errors ;;
  ret (mkFindings giscusScript giscusIframe giscusRequests giscusResponses).

(** Lines 54-175: navigate, wait, then look and print. *)
Definition observe (w : world) : M findings :=
  console_log LStart ;;
  await (Goto target_url "networkidle" 30000) (w_goto w) ;;
  await (WaitForTimeout 5000) (w_waitForTimeout w) ;;
  inspect w.

Definition found (h : option elementHandle) : string :=
  match h with
  | Some _ => "found"
  | None => "not found"
  end.

(** Lines 177-194.  [report.consoleLogs] and [report.pageErrors] are the
    arrays themselves; they are read when [JSON.stringify] runs, and no
    listener runs between line 178 and line 192. *)
Definition write_report (w : world) (f : findings) : M unit :=
  consoleLogs <- get consoleLogs ;;
  pageErrors <- get pageErrors ;;
  let report :=
    {| Report.timestamp := w_now w;
       Report.url := target_url;
       Report.giscusScript := found (giscusScript f);
       Report.giscusIframe := found (giscusIframe f);
       Report.requests := giscusRequests f;
       Report.responses := giscusResponses f;
       Report.consoleLogs := consoleLogs;
       Report.pageErrors := pageErrors |} in
  invoke (WriteFileSync report_path report) (w_writeFileSync w) ;;
  emit (Created report_path (JsonFile report)) ;;
  console_log LReportSaved.

(** Lines 196-201. *)
Definition take_screenshot (w : world) : M unit :=
  await (Screenshot screenshot_path true) (w_screenshot w) ;;
  emit (Created screenshot_path PngFile) ;;
  console_log LScreenshotSaved.

(** The [try] block, lines 53-202. *)
Definition main_path (w : world) : M unit :=
  f <- observe w ;;
  write_report w f ;;
  take_screenshot w.

(** Lines 4-6: the browser, the context and the page, before the [try]. *)
Definition setup (w : world) : M unit :=
  invoke (Launch false) (w_launch w) ;;
  invoke NewContext (w_newContext w) ;;
  invoke NewPage (w_newPage w).

(** The [try] statement, lines 53-207. *)
Definition guarded (w : world) : M unit :=
  try_catch_finally
    (main_path w)
    (fun error => console_error (LCaught error))
    (await Close (w_close w)).

(** The whole asynchronous function, lines 3-208.  Between the setup and
    the [try] statement, lines 8-51 declare the four arrays, empty as in
    [initial], and register the four listeners: from then on the events of
    an [awaited] operation reach [dispatch]. *)
Definition script (w : world) : M unit :=
  setup w ;;
  guarded w.

(** One run: the way the function's promise settles, and the final state. *)
Definition run (w : world) : result unit * state := script w initial.

Definition outcome (w : world) : result unit := fst (run w).
Definition final (w : world) : state := snd (run w).

(* ------------------------------------------------------------------ *)
(** ** Reading a trace *)

Definition calls (tl : list effect) : list call :=
  flat_map (fun e => match e with Call c => [c] | _ => [] end) tl.


Definition files (tl : list effect) : list (string * file) :=
  flat_map (fun e => match e with Created p f => [(p, f)] | _ => [] end) tl.

(** The reports that reached the disk. *)
Definition reports (tl : list effect) : list Report.t :=
  flat_map (fun e => match e with Created _ (JsonFile r) => [r] | _ => [] end) tl.

(** The reports that were serialized and handed to [fs.writeFileSync]. *)
Definition serialized (tl : list effect) : list Report.t :=
  flat_map (fun e => match e with Call (WriteFileSync _ r) => [r] | _ => [] end) tl.

(** The errors logged by the [catch] clause (line 204). *)
Definition caught (tl : list effect) : list exn :=
  flat_map (fun e => match e with Print _ (LCaught x) => [x] | _ => [] end) tl.

(** The records of the events of each kind that occur in a trace. *)
Definition requests_in (tl : list effect) : list Request.t :=
  flat_map (fun e => match e with Recv (EvRequest r) => [r] | _ => [] end) tl.

Definition responses_in (tl : list effect) : list Response.t :=
  flat_map (fun e => match e with Recv (EvResponse r) => [r] | _ => [] end) tl.

Definition consoleLogs_in (tl : list effect) : list ConsoleLog.t :=
  flat_map (fun e => match e with Recv (EvConsole m) => [m] | _ => [] end) tl.

Definition pageErrors_in (tl : list effect) : list PageError.t :=
  flat_map (fun e => match e with Recv (EvPageError x) => [x] | _ => [] end) tl.

(** The line a listener prints for an event. *)
Definition listener_line (ev : event) : effect :=
  match ev with
  | EvRequest r =>
      Print ConsoleLogStream (LRequest (Request.method r) (Request.url r))
  | EvResponse r =>
      Print ConsoleLogStream (LResponse (Response.status r) (Response.url r))
  | EvConsole m =>
      Print ConsoleLogStream
        (LConsole (Js.toUpperCase (ConsoleLog.type m)) (ConsoleLog.text m))
  | EvPageError x =>
      Print ConsoleErrorStream (LPageError (PageError.message x))
  end.

(** What a sequence of events leaves in the trace. *)
Definition heard (evs : list event) : list effect :=
  flat_map (fun ev => [Recv ev; listener_line ev]) evs.

(** [st] after the effects [tl]: the trace grows by [tl], and each array by
    the records of its own events in [tl]. *)
Definition absorb (st : state) (tl : list effect) : state :=
  mkState (requests st ++ requests_in tl)
          (responses st ++ responses_in tl)
          (consoleLogs st ++ consoleLogs_in tl)
          (pageErrors st ++ pageErrors_in tl)
          (trace st ++ tl).

(** The way the [try] block of a run ends, when the run gets there. *)
Definition entered (w : world) : Prop :=
  w_launch w = Ok tt /\ w_newContext w = Ok tt /\ w_newPage w = Ok tt.

Definition at_try (w : world) : state := snd (setup w initial).

Definition main_result (w : world) : result unit := fst (main_path w (at_try w)).

Definition observed (w : world) : result findings := fst (observe w (at_try w)).

(* ------------------------------------------------------------------ *)
(** ** Concrete worlds *)

Definition quiet {A} (a : A) : awaited A := mkAwaited [] (Ok a).

Definition page_request : Request.t :=
  Request.mk target_url "GET" [("accept", "text/html")] None.
Definition client_request : Request.t :=
  Request.mk "https://giscus.app/client.js" "GET" [] None.
Definition widget_request : Request.t :=
  Request.mk "https://giscus.app/en/widget?origin=x" "GET" [] None.
Definition page_response : Response.t :=
  Response.mk target_url 200 "OK".
Definition client_response : Response.t :=
  Response.mk "https://giscus.app/client.js" 200 "OK".
Definition widget_response (status : Z) : Response.t :=
  Response.mk "https://giscus.app/en/widget?origin=x" status "".
Definition warning_message : ConsoleLog.t :=
  ConsoleLog.mk "error" "giscus: discussion not found"
    (ConsoleLog.mkLocation "https://giscus.app/client.js" 1 120).
Definition script_error : PageError.t :=
  PageError.mk "x is not defined" (Some "ReferenceError: x is not defined").

Definition giscus_attribute (key : string) : option string :=
  if String.eqb key "data-repo" then Some "ddnio/ddnio.github.io"
  else if String.eqb key "data-mapping" then Some "pathname"
  else None.

(** A run in which everything succeeds; the widget answers with [status]. *)
Definition w_loaded (status : Z) : world :=
  {| w_argv := ["node"; "check-giscus.js"];
     w_launch := Ok tt;
     w_newContext := Ok tt;
     w_newPage := Ok tt;
     w_goto :=
       mkAwaited
         [ EvRequest page_request; EvResponse page_response;
           EvRequest client_request; EvResponse client_response ]
         (Ok tt);
     w_waitForTimeout :=
       mkAwaited
         [ EvRequest widget_request; EvResponse (widget_response status);
           EvConsole warning_message; EvPageError script_error ]
         (Ok tt);
     w_queryScript := quiet (Some (ElementHandle 1));
     w_scriptSrc := quiet (Some "https://giscus.app/client.js");
     w_scriptAttribute := quiet giscus_attribute;
     w_queryIframe := quiet (Some (ElementHandle 2));
     w_iframeSrc := quiet (Some "https://giscus.app/en/widget?origin=x");
     w_queryContainer := quiet (Some (ElementHandle 3));
     w_innerHTML := quiet "<iframe class='giscus-frame'></iframe>";
     w_now := "2025-01-01T00:00:00.000Z";
     w_writeFileSync := Ok tt;
     w_screenshot := quiet tt;
     w_close := quiet tt |}.

Definition w_happy : world := w_loaded 200.

(* ------------------------------------------------------------------ *)
(** ** The vocabulary of the properties *)

Definition post (A : Type) : Type := state -> result A -> list effect -> Prop.

Definition sat {A} (m : M A) (Q : post A) : Prop :=
  forall st, exists r tl, m st = (r, absorb st tl) /\ Q st r tl.

(** A computation that throws stops at the call that threw: after that
    call the trace holds only what the listeners did while it was pending. *)
Definition abrupt {A} (r : result A) (tl : list effect) : Prop :=
  forall e, r = Throw e -> exists pre c evs, tl = pre ++ Call c :: heard evs.

(** [emits p m]: every effect of [m] satisfies [p], and [m] is abrupt. *)
Definition emits {A} (p : effect -> bool) (m : M A) : Prop :=
  sat m (fun _ r tl => forallb p tl = true /\ abrupt r tl).

(** [p] accepts whatever the listeners do. *)
Definition passive (p : effect -> bool) : Prop :=
  forall ev, p (Recv ev) = true /\ p (listener_line ev) = true.

(** Lines 54-175: one navigation to the fixed address, one wait of 5000 ms,
    queries on the page and its elements, lines on the console other than
    the one of the [catch] clause; no file. *)
Definition observing (e : effect) : bool :=
  match e with
  | Call (Goto u wu t) =>
      String.eqb u target_url && String.eqb wu "networkidle" && (t =? 30000)%Z
  | Call (WaitForTimeout ms) => (ms =? 5000)%Z
  | Call (Query _) | Call (GetAttribute _ _)
  | Call (Evaluate _) | Call (InnerHTML _) => true
  | Call _ => false
  | Recv _ => true
  | Print _ (LCaught _) => false
  | Print _ _ => true
  | Created _ _ => false
  end.

(** Lines 177-201: the two files at their fixed paths. *)
Definition saving (e : effect) : bool :=
  match e with
  | Call (WriteFileSync p _) => String.eqb p report_path
  | Call (Screenshot p fullPage) => String.eqb p screenshot_path && fullPage
  | Call _ => false
  | Recv _ => true
  | Print _ (LCaught _) => false
  | Print _ _ => true
  | Created p (JsonFile _) => String.eqb p report_path
  | Created p PngFile => String.eqb p screenshot_path
  end.

Definition trying (e : effect) : bool := observing e || saving e.

(** No call. *)
Definition silent (e : effect) : bool :=
  match e with
  | Call _ => false
  | _ => true
  end.

(** Lines 110-139 and 153-175: lines on the console and nothing else. *)
Definition printing (e : effect) : bool :=
  match e with
  | Print _ (LCaught _) => false
  | Print _ _ => true
  | _ => false
  end.

(** The line of the script a call is made at. *)
Definition line_of (c : call) : nat :=
  match c with
  | Launch _ => 4
  | NewContext => 5
  | NewPage => 6
  | Goto _ _ _ => 55
  | WaitForTimeout _ => 61
  | Query selector =>
      if String.eqb selector script_selector then 64
      else if String.eqb selector iframe_selector then 95
      else 142
  | GetAttribute ElScript _ => 66
  | GetAttribute ElIframe _ => 97
  | GetAttribute ElContainer _ => 144
  | Evaluate _ => 69
  | InnerHTML _ => 144
  | WriteFileSync _ _ => 190
  | Screenshot _ _ => 197
  | Close => 206
  end.

(** [ls] is strictly increasing and starts at [lo] or later. *)
Fixpoint increasing_from (lo : nat) (ls : list nat) : bool :=
  match ls with
  | [] => true
  | x :: ls' => (lo <=? x)%nat && increasing_from (S x) ls'
  end.

(** [ls] is strictly increasing within [lo, hi). *)
Definition between (lo hi : nat) (ls : list nat) : Prop :=
  increasing_from lo (ls ++ [hi]) = true.

(** [ascending lo hi m]: the calls of [m] are made at increasing lines
    within [lo, hi). *)
Definition ascending {A} (lo hi : nat) (m : M A) : Prop :=
  sat m (fun _ _ tl => between lo hi (map line_of (calls tl))).

(** The first five calls of the script. *)
Definition opening : list call :=
  [ Launch false; NewContext; NewPage;
    Goto target_url "networkidle" 30000; WaitForTimeout 5000 ].

(** What the [catch] clause prints. *)
Definition handler_lines (r : result unit) : list effect :=
  match r with
  | Ok _ => []
  | Throw e => [Print ConsoleErrorStream (LCaught e)]
  end.

(** What the [finally] clause does. *)
Definition cleanup (w : world) : list effect :=
  Call Close :: heard (during (w_close w)).

(** The way the [try] statement ends: a caught exception is swallowed, an
    exception of [browser.close()] is not. *)
Definition settles (r closed : result unit) : result unit :=
  match closed with
  | Throw e => Throw e
  | Ok _ => match r with
            | Ok a => Ok a
            | Throw _ => Ok tt
            end
  end.

(** The report built at lines 178-187 from the findings, in state [st]. *)
Definition report_of (w : world) (f : findings) (st : state) : Report.t :=
  {| Report.timestamp := w_now w;
     Report.url := target_url;
     Report.giscusScript := found (giscusScript f);
     Report.giscusIframe := found (giscusIframe f);
     Report.requests := giscusRequests f;
     Report.responses := giscusResponses f;
     Report.consoleLogs := consoleLogs st;
     Report.pageErrors := pageErrors st |}.

(** The effects of lines 196-201. *)
Definition shot (w : world) : list effect :=
  Call (Screenshot screenshot_path true) :: heard (during (w_screenshot w)) ++
  match settled (w_screenshot w) with
  | Ok _ => [Created screenshot_path PngFile; Print ConsoleLogStream LScreenshotSaved]
  | Throw _ => []
  end.

(** The effects of lines 177-201, for the report [rep]. *)
Definition saved (w : world) (rep : Report.t) : list effect :=
  Call (WriteFileSync report_path rep) ::
  match w_writeFileSync w with
  | Ok _ =>
      Created report_path (JsonFile rep) ::
      Print ConsoleLogStream LReportSaved :: shot w
  | Throw _ => []
  end.

Definition saved_result (w : world) : result unit :=
  match w_writeFileSync w with
  | Ok _ => settled (w_screenshot w)
  | Throw e => Throw e
  end.

(** What the findings of a successful [inspect] or [observe] are, in terms
    of the state [st] it started from and of its effects [tl]: the two
    handles are the results of the two queries, and the two filtered
    arrays are taken when the network summary starts (lines 111 and
    127), from the records collected until then. *)
Definition learned (w : world) (st : state) (f : findings) (tl : list effect)
    : Prop :=
  settled (w_queryScript w) = Ok (giscusScript f) /\
  settled (w_queryIframe w) = Ok (giscusIframe f) /\
  exists t1 t2,
    tl = t1 ++ Print ConsoleLogStream LNetworkRequests :: t2 /\
    giscusRequests f =
      filter (fun r => includes (Request.url r) "giscus")
             (requests st ++ requests_in t1) /\
    giscusResponses f =
      filter (fun r => includes (Response.url r) "giscus")
             (responses st ++ responses_in t1).

(** The effects and the result of the [try] block, given the way its first
    part ended, with effects [t1], from the state [st]. *)
Definition main_effects (w : world) (st : state) (ro : result findings)
    (t1 : list effect) : list effect :=
  match ro with
  | Ok f => t1 ++ saved w (report_of w f (absorb st t1))
  | Throw _ => t1
  end.

Definition main_outcome (w : world) (ro : result findings) : result unit :=
  match ro with
  | Ok _ => saved_result w
  | Throw e => Throw e
  end.

(** The arguments the script passes are constants. *)
Definition fixed_arguments (c : call) : Prop :=
  match c with
  | Launch headless => headless = false
  | Goto u wu t => u = target_url /\ wu = "networkidle" /\ t = 30000%Z
  | WaitForTimeout ms => ms = 5000%Z
  | WriteFileSync p _ => p = report_path
  | Screenshot p fullPage => p = screenshot_path /\ fullPage = true
  | _ => True
  end.

Definition fixed_path (pf : string * file) : Prop :=
  match snd pf with
  | JsonFile _ => fst pf = report_path
  | PngFile => fst pf = screenshot_path
  end.

Definition absolute (path : string) : Prop := String.prefix "/" path = true.

Definition is_close (c : call) : bool :=
  match c with
  | Close => true
  | _ => false
  end.

Definition is_save (c : call) : bool :=
  match c with
  | WriteFileSync _ _ | Screenshot _ _ => true
  | _ => false
  end.

Definition set_argv (argv : list string) (w : world) : world :=
  {| w_argv := argv;
     w_launch := w_launch w;
     w_newContext := w_newContext w;
     w_newPage := w_newPage w;
     w_goto := w_goto w;
     w_waitForTimeout := w_waitForTimeout w;
     w_queryScript := w_queryScript w;
     w_scriptSrc := w_scriptSrc w;
     w_scriptAttribute := w_scriptAttribute w;
     w_queryIframe := w_queryIframe w;
     w_iframeSrc := w_iframeSrc w;
     w_queryContainer := w_queryContainer w;
     w_innerHTML := w_innerHTML w;
     w_now := w_now w;
     w_writeFileSync := w_writeFileSync w;
     w_screenshot := w_screenshot w;
     w_close := w_close w |}.

(** The arguments and the paths of a whole trace are the constants. *)
Definition addressed (e : effect) : bool :=
  match e with
  | Call (Launch headless) => negb headless
  | Call (Goto u wu t) =>
      String.eqb u target_url && String.eqb wu "networkidle" && (t =? 30000)%Z
  | Call (WaitForTimeout ms) => (ms =? 5000)%Z
  | Call (WriteFileSync p _) => String.eqb p report_path
  | Call (Screenshot p fullPage) => String.eqb p screenshot_path && fullPage
  | Created p (JsonFile _) => String.eqb p report_path
  | Created p PngFile => String.eqb p screenshot_path
  | _ => true
  end.

Definition set_newContext (r : result unit) (w : world) : world :=
  {| w_argv := w_argv w;
     w_launch := w_launch w;
     w_newContext := r;
     w_newPage := w_newPage w;
     w_goto := w_goto w;
     w_waitForTimeout := w_waitForTimeout w;
     w_queryScript := w_queryScript w;
     w_scriptSrc := w_scriptSrc w;
     w_scriptAttribute := w_scriptAttribute w;
     w_queryIframe := w_queryIframe w;
     w_iframeSrc := w_iframeSrc w;
     w_queryContainer := w_queryContainer w;
     w_innerHTML := w_innerHTML w;
     w_now := w_now w;
     w_writeFileSync := w_writeFileSync w;
     w_screenshot := w_screenshot w;
     w_close := w_close w |}.

Definition set_goto (a : awaited unit) (w : world) : world :=
  {| w_argv := w_argv w;
     w_launch := w_launch w;
     w_newContext := w_newContext w;
     w_newPage := w_newPage w;
     w_goto := a;
     w_waitForTimeout := w_waitForTimeout w;
     w_queryScript := w_queryScript w;
     w_scriptSrc := w_scriptSrc w;
     w_scriptAttribute := w_scriptAttribute w;
     w_queryIframe := w_queryIframe w;
     w_iframeSrc := w_iframeSrc w;
     w_queryContainer := w_queryContainer w;
     w_innerHTML := w_innerHTML w;
     w_now := w_now w;
     w_writeFileSync := w_writeFileSync w;
     w_screenshot := w_screenshot w;
     w_close := w_close w |}.

Definition set_queryContainer (a : awaited (option elementHandle)) (w : world)
    : world :=
  {| w_argv := w_argv w;
     w_launch := w_launch w;
     w_newContext := w_newContext w;
     w_newPage := w_newPage w;
     w_goto := w_goto w;
     w_waitForTimeout := w_waitForTimeout w;
     w_queryScript := w_queryScript w;
     w_scriptSrc := w_scriptSrc w;
     w_scriptAttribute := w_scriptAttribute w;
     w_queryIframe := w_queryIframe w;
     w_iframeSrc := w_iframeSrc w;
     w_queryContainer := a;
     w_innerHTML := w_innerHTML w;
     w_now := w_now w;
     w_writeFileSync := w_writeFileSync w;
     w_screenshot := w_screenshot w;
     w_close := w_close w |}.

(** The browser starts, then [browser.newContext()] rejects. *)
Definition w_no_context : world :=
  set_newContext (Throw "browser has been closed") w_happy.

(** The local server is down: [page.goto] rejects after the request. *)
Definition w_server_down : world :=
  set_goto
    (mkAwaited [EvRequest page_request] (Throw "net::ERR_CONNECTION_REFUSED"))
    w_happy.

(** An operation throws before the report is written: one of the three
    calls of the setup, or one of the calls of lines 54-175. *)
Definition throws_before_write (w : world) (e : exn) : Prop :=
  fst (setup w initial) = Throw e \/ (entered w /\ observed w = Throw e).

(** What follows the failure: nothing when the [try] was not reached, the
    [catch] and [finally] clauses when it was. *)
Definition aftermath (w : world) (e : exn) : list effect :=
  match fst (setup w initial) with
  | Ok _ =>
      Print ConsoleErrorStream (LCaught e) ::
      Call Close :: heard (during (w_close w))
  | Throw _ => []
  end.

(** A request that the widget sends late, while the script is querying the
    container (line 142). *)
Definition late_request : Request.t :=
  Request.mk "https://giscus.app/api/discussions?repo=ddnio" "GET" [] None.

Definition w_late : world :=
  set_queryContainer
    (mkAwaited [EvRequest late_request] (Ok (Some (ElementHandle 3))))
    w_happy.

(** The query returned an element handle, not [null]. *)
Definition returned_handle (a : awaited (option elementHandle)) : bool :=
  match settled a with
  | Ok (Some _) => true
  | _ => false
  end.

(** The lines printed by the listeners. *)
Definition from_listener (l : line) : bool :=
  match l with
  | LRequest _ _ | LResponse _ _ | LConsole _ _ | LPageError _ => true
  | _ => false
  end.


(** The lines printed by the script itself, not by its listeners. *)
Definition script_lines (tl : list effect) : list line :=
  flat_map (fun e => match e with
                     | Print _ l => if from_listener l then [] else [l]
                     | _ => []
                     end) tl.

(* ------------------------------------------------------------------ *)
(** ** More vocabulary: whole traces, summaries and failing worlds *)

(** [keeps P m]: from any state, the effects of [m] satisfy [P]. *)
Definition keeps {A} (P : list effect -> Prop) (m : M A) : Prop :=
  sat m (fun _ _ tl => P tl).

(** [P] holds of the empty trace and of the concatenation of two traces it
    holds of. *)
Definition closed (P : list effect -> Prop) : Prop :=
  P [] /\ forall t1 t2, P t1 -> P t2 -> P (t1 ++ t2).

(** The events of a trace. *)
Definition received (tl : list effect) : list event :=
  flat_map (fun e => match e with Recv ev => [ev] | _ => [] end) tl.

(** A line of one of the four listeners (lines 17, 28, 40 and 50). *)
Definition is_listener_print (e : effect) : bool :=
  match e with
  | Print _ l => from_listener l
  | _ => false
  end.

(** The listeners' lines of a trace are the lines of its events, in order. *)
Definition echoed (tl : list effect) : Prop :=
  filter is_listener_print tl = map listener_line (received tl).

(** The events the page emits, in the world [w], while the script is
    suspended on the call [c]: those of the operation of the world that the
    call stands for; none for a call that is not awaited with a listener
    registered (lines 4-6 and [fs.writeFileSync]). *)
Definition emitted (w : world) (c : call) : list event :=
  match c with
  | Launch _ | NewContext | NewPage | WriteFileSync _ _ => []
  | Goto _ _ _ => during (w_goto w)
  | WaitForTimeout _ => during (w_waitForTimeout w)
  | Query selector =>
      if String.eqb selector script_selector then during (w_queryScript w)
      else if String.eqb selector iframe_selector then during (w_queryIframe w)
      else during (w_queryContainer w)
  | GetAttribute ElScript _ => during (w_scriptSrc w)
  | GetAttribute ElIframe _ => during (w_iframeSrc w)
  | GetAttribute ElContainer _ => []
  | Evaluate _ => during (w_scriptAttribute w)
  | InnerHTML _ => during (w_innerHTML w)
  | Screenshot _ _ => during (w_screenshot w)
  | Close => during (w_close w)
  end.

(** Every event the page may emit in the world [w]. *)
Definition events_of (w : world) : list event :=
  during (w_goto w) ++ during (w_waitForTimeout w) ++
  during (w_queryScript w) ++ during (w_scriptSrc w) ++
  during (w_scriptAttribute w) ++ during (w_queryIframe w) ++
  during (w_iframeSrc w) ++ during (w_queryContainer w) ++
  during (w_innerHTML w) ++ during (w_screenshot w) ++ during (w_close w).

(** The type of a console message is an ASCII string. *)
Definition typed_in_ascii (ev : event) : bool :=
  match ev with
  | EvConsole msg => Js.ascii_only (ConsoleLog.type msg)
  | _ => true
  end.

(** The console messages of the world [w] have ASCII types, as the type
    names of Playwright are. *)
Definition console_types_in_ascii (w : world) : Prop :=
  forallb typed_in_ascii (events_of w) = true.

(** The events of a trace are those the world emits during its calls. *)
Definition delivered (w : world) (tl : list effect) : Prop :=
  received tl = flat_map (emitted w) (calls tl).

Definition is_event (e : effect) : bool :=
  match e with
  | Recv _ => true
  | _ => false
  end.

(** Each event of the trace is followed at once by the line of its
    listener, and a listener's line occurs nowhere else. *)
Inductive echoes : list effect -> Prop :=
| echoes_nil : echoes []
| echoes_event (ev : event) (tl : list effect) :
    echoes tl -> echoes (Recv ev :: listener_line ev :: tl)
| echoes_other (e : effect) (tl : list effect) :
    is_event e = false -> is_listener_print e = false ->
    echoes tl -> echoes (e :: tl).

(** The two lines that announce a saved file (lines 194 and 201). *)
Definition announcements (tl : list effect) : list line :=
  flat_map (fun e => match e with
                     | Print _ LReportSaved => [LReportSaved]
                     | Print _ LScreenshotSaved => [LScreenshotSaved]
                     | _ => []
                     end) tl.

(** The announcement that goes with each file written. *)
Definition due_announcements (tl : list effect) : list line :=
  flat_map (fun e => match e with
                     | Created _ (JsonFile _) => [LReportSaved]
                     | Created _ PngFile => [LScreenshotSaved]
                     | _ => []
                     end) tl.

Definition announced (tl : list effect) : Prop :=
  announcements tl = due_announcements tl.

(** The elements of [xs] with the index [forEach] passes with each, counted
    from [idx]. *)
Definition numbered {A} (idx : nat) (xs : list A) : list (A * nat) :=
  combine xs (seq idx (List.length xs)).

(** What the lines of a summary say. *)
Definition request_headers (ls : list line) : list nat :=
  flat_map (fun l => match l with LRequestHeader n => [n] | _ => [] end) ls.

Definition request_urls (ls : list line) : list string :=
  flat_map (fun l => match l with LRequestUrl u => [u] | _ => [] end) ls.

Definition request_url_lengths (ls : list line) : list nat :=
  flat_map (fun l => match l with LRequestUrlLength n => [n] | _ => [] end) ls.

Definition request_warnings (ls : list line) : list line :=
  flat_map (fun l => match l with LRequestUrlTooLong => [l] | _ => [] end) ls.

Definition response_headers (ls : list line) : list nat :=
  flat_map (fun l => match l with LResponseHeader n => [n] | _ => [] end) ls.

Definition response_statuses (ls : list line) : list (Z * string) :=
  flat_map (fun l => match l with LResponseStatus s t => [(s, t)] | _ => [] end) ls.

Definition response_warnings (ls : list line) : list line :=
  flat_map (fun l => match l with LResponseFailed => [l] | _ => [] end) ls.

Definition error_headers (ls : list line) : list nat :=
  flat_map (fun l => match l with LErrorHeader n => [n] | _ => [] end) ls.

Definition error_texts (ls : list line) : list string :=
  flat_map (fun l => match l with LErrorText t => [t] | _ => [] end) ls.

Definition error_stacks (ls : list line) : list string :=
  flat_map (fun l => match l with LErrorStack s => [s] | _ => [] end) ls.

(** The lines printed for one element of each summary. *)
Definition request_lines (req : Request.t) (idx : nat) : list line :=
  [ LRequestHeader (idx + 1);
    LRequestMethod (Request.method req);
    LRequestUrl (Request.url req);
    LRequestUrlLength (Js.length (Request.url req)) ] ++
  (if (2000 <? Js.length (Request.url req))%nat
   then [LRequestUrlTooLong] else []).

Definition response_lines (res : Response.t) (idx : nat) : list line :=
  [ LResponseHeader (idx + 1);
    LResponseStatus (Response.status res) (Response.statusText res);
    LResponseUrl (Response.url res) ] ++
  (if (400 <=? Response.status res)%Z then [LResponseFailed] else []).

Definition console_error_lines (err : ConsoleLog.t) (idx : nat) : list line :=
  [LErrorHeader (idx + 1); LErrorText (ConsoleLog.text err)].

Definition page_error_lines (err : PageError.t) (idx : nat) : list line :=
  [LErrorHeader (idx + 1); LErrorText (PageError.message err)] ++
  match PageError.stack err with
  | Some (String c s) => [LErrorStack (String c s)]
  | _ => []
  end.

(** The lines of [xs.forEach] when the callback prints [lines x idx]. *)
Definition each_lines {A} (lines : A -> nat -> list line) (xs : list A)
    : list line :=
  flat_map (fun xi => lines (fst xi) (snd xi)) (numbered 0 xs).

(** A stack that [if (err.stack)] accepts: defined and not empty. *)
Definition shown_stack (err : PageError.t) : list string :=
  match PageError.stack err with
  | Some (String c s) => [String c s]
  | _ => []
  end.

Definition set_writeFileSync (r : result unit) (w : world) : world :=
  {| w_argv := w_argv w;
     w_launch := w_launch w;
     w_newContext := w_newContext w;
     w_newPage := w_newPage w;
     w_goto := w_goto w;
     w_waitForTimeout := w_waitForTimeout w;
     w_queryScript := w_queryScript w;
     w_scriptSrc := w_scriptSrc w;
     w_scriptAttribute := w_scriptAttribute w;
     w_queryIframe := w_queryIframe w;
     w_iframeSrc := w_iframeSrc w;
     w_queryContainer := w_queryContainer w;
     w_innerHTML := w_innerHTML w;
     w_now := w_now w;
     w_writeFileSync := r;
     w_screenshot := w_screenshot w;
     w_close := w_close w |}.

Definition set_screenshot (a : awaited unit) (w : world) : world :=
  {| w_argv := w_argv w;
     w_launch := w_launch w;
     w_newContext := w_newContext w;
     w_newPage := w_newPage w;
     w_goto := w_goto w;
     w_waitForTimeout := w_waitForTimeout w;
     w_queryScript := w_queryScript w;
     w_scriptSrc := w_scriptSrc w;
     w_scriptAttribute := w_scriptAttribute w;
     w_queryIframe := w_queryIframe w;
     w_iframeSrc := w_iframeSrc w;
     w_queryContainer := w_queryContainer w;
     w_innerHTML := w_innerHTML w;
     w_now := w_now w;
     w_writeFileSync := w_writeFileSync w;
     w_screenshot := a;
     w_close := w_close w |}.

Definition set_iframeSrc (a : awaited (option string)) (w : world) : world :=
  {| w_argv := w_argv w;
     w_launch := w_launch w;
     w_newContext := w_newContext w;
     w_newPage := w_newPage w;
     w_goto := w_goto w;
     w_waitForTimeout := w_waitForTimeout w;
     w_queryScript := w_queryScript w;
     w_scriptSrc := w_scriptSrc w;
     w_scriptAttribute := w_scriptAttribute w;
     w_queryIframe := w_queryIframe w;
     w_iframeSrc := a;
     w_queryContainer := w_queryContainer w;
     w_innerHTML := w_innerHTML w;
     w_now := w_now w;
     w_writeFileSync := w_writeFileSync w;
     w_screenshot := w_screenshot w;
     w_close := w_close w |}.

(** The directory of the report does not exist: [fs.writeFileSync] throws. *)
Definition w_no_directory : world :=
  set_writeFileSync (Throw "ENOENT: no such file or directory") w_happy.

(** The page is closed while the screenshot is taken. *)
Definition w_no_screenshot : world :=
  set_screenshot
    (mkAwaited [EvConsole warning_message] (Throw "page.screenshot: Target closed"))
    w_happy.

(** The iframe is there and has no [src] attribute. *)
Definition w_iframe_without_src : world := set_iframeSrc (quiet None) w_happy.


(** A container whose HTML is the character U+8BC4 334 times. *)
Definition chinese_html : string :=
  String.concat EmptyString (List.repeat "评" 334).


(* ------------------------------------------------------------------ *)
(** ** The linear sequence of the main path

    The sequence as the specification words it: a list of steps, each a
    call with whether it returns in the world of the run; the script makes
    the calls one after the other and stops at the first that throws. *)

Definition returns {A} (r : result A) : bool :=
  match r with
  | Ok _ => true
  | Throw _ => false
  end.

(** The calls made: every step up to and including the first that throws. *)
Fixpoint until_throw (steps : list (call * bool)) : list call :=
  match steps with
  | [] => []
  | (c, returned) :: rest => c :: (if returned then until_throw rest else [])
  end.

(** The steps made on an element: only when its query returned a handle. *)
Definition when_found (a : awaited (option elementHandle))
    (steps : list (call * bool)) : list (call * bool) :=
  if returned_handle a then steps else [].

(** One browser, one context, one page. *)
Definition setup_steps (w : world) : list (call * bool) :=
  [ (Launch false, returns (w_launch w));
    (NewContext, returns (w_newContext w));
    (NewPage, returns (w_newPage w)) ].

(** One navigation, then one wait. *)
Definition visit_steps (w : world) : list (call * bool) :=
  [ (Goto target_url "networkidle" 30000, returns (settled (w_goto w)));
    (WaitForTimeout 5000, returns (settled (w_waitForTimeout w))) ].

(** The three queries, each with the reads of the element it found. *)
Definition script_steps (w : world) : list (call * bool) :=
  (Query script_selector, returns (settled (w_queryScript w))) ::
  when_found (w_queryScript w)
    [ (GetAttribute ElScript "src", returns (settled (w_scriptSrc w)));
      (Evaluate ElScript, returns (settled (w_scriptAttribute w))) ].

Definition iframe_steps (w : world) : list (call * bool) :=
  (Query iframe_selector, returns (settled (w_queryIframe w))) ::
  when_found (w_queryIframe w)
    [ (GetAttribute ElIframe "src", returns (settled (w_iframeSrc w))) ].

Definition container_steps (w : world) : list (call * bool) :=
  (Query container_selector, returns (settled (w_queryContainer w))) ::
  when_found (w_queryContainer w)
    [ (InnerHTML ElContainer, returns (settled (w_innerHTML w))) ].

Definition query_steps (w : world) : list (call * bool) :=
  script_steps w ++ iframe_steps w ++ container_steps w.

(** The report [rep], then the screenshot. *)
Definition save_steps (w : world) (rep : Report.t) : list (call * bool) :=
  [ (WriteFileSync report_path rep, returns (w_writeFileSync w));
    (Screenshot screenshot_path true, returns (settled (w_screenshot w))) ].

(** The calls of a run in the world [w]: those of the setup; then, when the
    page exists, those of the [try] block up to the first that throws, and
    [browser.close()]. *)
Definition linear_sequence (w : world) (rep : Report.t) : list call :=
  until_throw (setup_steps w) ++
  (if forallb snd (setup_steps w)
   then
     until_throw (visit_steps w ++ query_steps w ++ save_steps w rep) ++ [Close]
   else []).

(** No operation of the run throws. *)
Definition unfailing (w : world) : bool :=
  forallb snd (setup_steps w) && forallb snd (visit_steps w) &&
  forallb snd (query_steps w) && returns (w_writeFileSync w) &&
  returns (settled (w_screenshot w)) && returns (settled (w_close w)).

Definition is_query (c : call) : bool :=
  match c with
  | Query _ => true
  | _ => false
  end.

(** [performs steps m]: from any state, the calls of [m] are those of
    [steps] up to the first that throws, and [m] returns exactly when every
    step does. *)
Definition performs {A} (steps : list (call * bool)) (m : M A) : Prop :=
  sat m (fun _ r tl =>
           calls tl = until_throw steps /\ returns r = forallb snd steps).

(* ------------------------------------------------------------------ *)
(** ** Effects of the primitive operations *)

Section Absorb.

Lemma absorb_nil (st : state) : absorb st [] = st.
Proof.
  destruct st; unfold absorb; simpl. now rewrite !app_nil_r.
Qed.

Lemma absorb_app (st : state) (t1 t2 : list effect) :
  absorb (absorb st t1) t2 = absorb st (t1 ++ t2).
Proof.
  unfold absorb, requests_in, responses_in, consoleLogs_in, pageErrors_in.
  simpl. rewrite !flat_map_app, <- !app_assoc. reflexivity.
Qed.

Lemma emit_call_eq (c : call) (st : state) :
  emit (Call c) st = (Ok tt, absorb st [Call c]).
Proof.
  unfold emit, absorb; simpl. now rewrite !app_nil_r.
Qed.

Lemma emit_print_eq (s : stream) (l : line) (st : state) :
  emit (Print s l) st = (Ok tt, absorb st [Print s l]).
Proof.
  unfold emit, absorb; simpl. now rewrite !app_nil_r.
Qed.

Lemma emit_created_eq (p : string) (f : file) (st : state) :
  emit (Created p f) st = (Ok tt, absorb st [Created p f]).
Proof.
  unfold emit, absorb; simpl. now rewrite !app_nil_r.
Qed.

(** A listener appends one record to its own array and prints one line. *)
Lemma dispatch_eq (ev : event) (st : state) :
  dispatch ev st = (Ok tt, absorb st [Recv ev; listener_line ev]).
Proof.
  destruct ev as [[] | [] | [] | []]; destruct st;
    unfold dispatch, on_request, on_response, on_console, on_pageerror,
      push_request, push_response, push_consoleLog, push_pageError,
      console_log, console_error, emit, bind, absorb; simpl;
    now rewrite ?app_nil_r, <- ?app_assoc.
Qed.

Lemma dispatch_all_eq (evs : list event) (st : state) :
  dispatch_all evs st = (Ok tt, absorb st (heard evs)).
Proof.
  revert st; induction evs as [| ev evs IH]; intros st; simpl.
  - unfold ret. now rewrite absorb_nil.
  - unfold bind. rewrite dispatch_eq, IH, absorb_app. reflexivity.
Qed.

Lemma invoke_eq {A} (c : call) (r : result A) (st : state) :
  invoke c r st = (r, absorb st [Call c]).
Proof.
  unfold invoke, bind. rewrite emit_call_eq. now destruct r.
Qed.

Lemma await_eq {A} (c : call) (a : awaited A) (st : state) :
  await c a st = (settled a, absorb st (Call c :: heard (during a))).
Proof.
  unfold await, bind.
  rewrite emit_call_eq, dispatch_all_eq, absorb_app. simpl.
  now destruct (settled a).
Qed.

End Absorb.

(* ------------------------------------------------------------------ *)
(** ** Specifications of computations

    [sat m Q]: from every state [st], [m] ends in [absorb st tl] for some
    effects [tl], and [Q] relates [st], the result and [tl]. *)

Section Sat.

Lemma sat_conseq {A} (m : M A) (Q Q' : post A) :
  sat m Q -> (forall st r tl, Q st r tl -> Q' st r tl) -> sat m Q'.
Proof.
  intros Hm HQ st. destruct (Hm st) as (r & tl & E & H). eauto.
Qed.

Lemma sat_ret {A} (a : A) :
  sat (ret a) (fun _ r tl => r = Ok a /\ tl = []).
Proof.
  intros st. exists (Ok a), []. now rewrite absorb_nil.
Qed.

Lemma sat_get {A} (f : state -> A) :
  sat (get f) (fun st r tl => r = Ok (f st) /\ tl = []).
Proof.
  intros st. exists (Ok (f st)), []. now rewrite absorb_nil.
Qed.

Lemma sat_print (s : stream) (l : line) :
  sat (emit (Print s l)) (fun _ r tl => r = Ok tt /\ tl = [Print s l]).
Proof.
  intros st. rewrite emit_print_eq. eauto.
Qed.

Lemma sat_created (p : string) (f : file) :
  sat (emit (Created p f)) (fun _ r tl => r = Ok tt /\ tl = [Created p f]).
Proof.
  intros st. rewrite emit_created_eq. eauto.
Qed.

Lemma sat_invoke {A} (c : call) (x : result A) :
  sat (invoke c x) (fun _ r tl => r = x /\ tl = [Call c]).
Proof.
  intros st. rewrite invoke_eq. eauto.
Qed.

Lemma sat_await {A} (c : call) (a : awaited A) :
  sat (await c a)
      (fun _ r tl => r = settled a /\ tl = Call c :: heard (during a)).
Proof.
  intros st. rewrite await_eq. eauto.
Qed.

(** Sequencing: either the first part throws and the rest is skipped, or
    the effects of the two parts follow each other. *)
Lemma sat_bind {A B} (m : M A) (k : A -> M B)
    (Q1 : post A) (Q2 : A -> post B) (Q : post B) :
  sat m Q1 ->
  (forall a, sat (k a) (Q2 a)) ->
  (forall st e t, Q1 st (Throw e) t -> Q st (Throw e) t) ->
  (forall st a t1 r t2,
      Q1 st (Ok a) t1 -> Q2 a (absorb st t1) r t2 -> Q st r (t1 ++ t2)) ->
  sat (bind m k) Q.
Proof.
  intros Hm Hk Hthrow Hseq st.
  destruct (Hm st) as (r1 & t1 & E1 & H1).
  unfold bind. rewrite E1. destruct r1 as [a | e].
  - destruct (Hk a (absorb st t1)) as (r2 & t2 & E2 & H2).
    exists r2, (t1 ++ t2). rewrite E2, absorb_app. eauto.
  - exists (Throw e), t1. eauto.
Qed.

End Sat.

Section Emits.

Variable p : effect -> bool.

Lemma forallb_heard (evs : list event) :
  passive p -> forallb p (heard evs) = true.
Proof.
  intros Hp. induction evs as [| ev evs IH]; simpl; [reflexivity |].
  destruct (Hp ev) as [-> ->]. exact IH.
Qed.

Lemma abrupt_ok {A} (a : A) (tl : list effect) : abrupt (Ok a) tl.
Proof. intros e H. discriminate. Qed.

Lemma abrupt_call {A} (r : result A) (c : call) (evs : list event) :
  abrupt r (Call c :: heard evs).
Proof. intros e _. now exists [], c, evs. Qed.

Lemma abrupt_app {A} (r : result A) (t1 t2 : list effect) :
  abrupt r t2 -> abrupt r (t1 ++ t2).
Proof.
  intros H e He. destruct (H e He) as (pre & c & evs & ->).
  exists (t1 ++ pre), c, evs. now rewrite app_assoc.
Qed.

Lemma emits_ret {A} (a : A) : emits p (ret a).
Proof.
  eapply sat_conseq; [apply sat_ret |].
  intros ? ? ? [-> ->]. split; [reflexivity | apply abrupt_ok].
Qed.

Lemma emits_get {A} (f : state -> A) : emits p (get f).
Proof.
  eapply sat_conseq; [apply sat_get |].
  intros ? ? ? [-> ->]. split; [reflexivity | apply abrupt_ok].
Qed.

Lemma emits_bind {A B} (m : M A) (k : A -> M B) :
  emits p m -> (forall a, emits p (k a)) -> emits p (bind m k).
Proof.
  intros Hm Hk. eapply sat_bind; [exact Hm | exact Hk | |]; simpl.
  - intros st e t [H1 H2]. split; [exact H1 |].
    intros e' _. exact (H2 e eq_refl).
  - intros st a t1 r t2 [H1 _] [H2 Hr]. split.
    + rewrite forallb_app, H1, H2. reflexivity.
    + now apply abrupt_app.
Qed.

Lemma emits_console_log (l : line) :
  p (Print ConsoleLogStream l) = true -> emits p (console_log l).
Proof.
  intros H. eapply sat_conseq; [apply sat_print |].
  intros ? ? ? [-> ->]. simpl. rewrite H. split; [reflexivity | apply abrupt_ok].
Qed.

Lemma emits_console_error (l : line) :
  p (Print ConsoleErrorStream l) = true -> emits p (console_error l).
Proof.
  intros H. eapply sat_conseq; [apply sat_print |].
  intros ? ? ? [-> ->]. simpl. rewrite H. split; [reflexivity | apply abrupt_ok].
Qed.

Lemma emits_created (path : string) (f : file) :
  p (Created path f) = true -> emits p (emit (Created path f)).
Proof.
  intros H. eapply sat_conseq; [apply sat_created |].
  intros ? ? ? [-> ->]. simpl. rewrite H. split; [reflexivity | apply abrupt_ok].
Qed.

Lemma emits_invoke {A} (c : call) (r : result A) :
  p (Call c) = true -> emits p (invoke c r).
Proof.
  intros H. eapply sat_conseq; [apply sat_invoke |].
  intros ? ? ? [_ ->]. simpl. rewrite H. split; [reflexivity |].
  apply (abrupt_call _ c []).
Qed.

Lemma emits_await {A} (c : call) (a : awaited A) :
  passive p -> p (Call c) = true -> emits p (await c a).
Proof.
  intros Hp H. eapply sat_conseq; [apply sat_await |].
  intros ? ? ? [_ ->]. simpl. rewrite H, forallb_heard by assumption.
  split; [reflexivity | apply abrupt_call].
Qed.

Lemma emits_console_logs (ls : list line) :
  (forall l, In l ls -> p (Print ConsoleLogStream l) = true) ->
  emits p (console_logs ls).
Proof.
  induction ls as [| l ls IH]; intros H; simpl.
  - apply emits_ret.
  - apply emits_bind.
    + apply emits_console_log, H. now left.
    + intros _. apply IH. intros l' Hl'. apply H. now right.
Qed.

Lemma emits_forEach_from {A} (f : A -> nat -> M unit) (xs : list A) :
  (forall x idx, emits p (f x idx)) ->
  forall idx, emits p (forEach_from f idx xs).
Proof.
  intros Hf. induction xs as [| x xs IH]; intros idx; simpl.
  - apply emits_ret.
  - apply emits_bind; [apply Hf | intros _; apply IH].
Qed.

Lemma emits_forEach {A} (xs : list A) (f : A -> nat -> M unit) :
  (forall x idx, emits p (f x idx)) -> emits p (forEach xs f).
Proof.
  intros Hf. apply emits_forEach_from, Hf.
Qed.

End Emits.

(** Walks through a block of the script; what is left are the conditions
    on [p], which evaluate. *)
Ltac emits_step :=
  lazymatch goal with
  | |- emits _ (bind _ _) => apply emits_bind; [| intros ?]
  | |- emits _ (ret _) => apply emits_ret
  | |- emits _ (get _) => apply emits_get
  | |- emits _ (console_log _) => apply emits_console_log; reflexivity
  | |- emits _ (console_error _) => apply emits_console_error; reflexivity
  | |- emits _ (emit (Created _ _)) => apply emits_created; reflexivity
  | |- emits _ (invoke _ _) => apply emits_invoke; reflexivity
  | |- emits _ (await _ _) => apply emits_await; [assumption | reflexivity]
  | |- emits _ (forEach _ _) => apply emits_forEach; intros ? ?
  | |- emits _ (console_logs _) =>
      apply emits_console_logs;
      let l := fresh "l" in let H := fresh "H" in
      intros l H; apply in_map_iff in H; destruct H as (? & <- & _); reflexivity
  | |- emits _ (let _ := _ in _) => cbv zeta
  | |- emits _ (match ?x with _ => _ end) => destruct x
  end.

Ltac emits_walk := repeat emits_step.

(* ------------------------------------------------------------------ *)
(** ** What each part of the script may do *)

Lemma printing_observing (e : effect) : printing e = true -> observing e = true.
Proof. destruct e as [| | s [] |]; simpl; congruence. Qed.

Lemma printing_silent (e : effect) : printing e = true -> silent e = true.
Proof. destruct e; simpl; congruence. Qed.

Lemma passive_observing : passive observing.
Proof. intros []; split; reflexivity. Qed.

Lemma passive_saving : passive saving.
Proof. intros []; split; reflexivity. Qed.

Lemma emits_weaken {A} (p q : effect -> bool) (m : M A) :
  (forall e, p e = true -> q e = true) -> emits p m -> emits q m.
Proof.
  intros Hpq Hm. eapply sat_conseq; [exact Hm |]. simpl.
  intros _ r tl [H Hr]. split; [| exact Hr].
  rewrite forallb_forall in *. auto.
Qed.

Section Blocks.

Variable w : world.

Lemma check_script_emits : emits observing (check_script w).
Proof.
  pose proof passive_observing. unfold check_script. emits_walk.
Qed.

Lemma check_iframe_emits : emits observing (check_iframe w).
Proof.
  pose proof passive_observing. unfold check_iframe. emits_walk.
Qed.

Lemma print_requests_emits (rs : list Request.t) :
  emits printing (print_requests rs).
Proof.
  unfold print_requests. emits_walk. unfold print_request. emits_walk.
Qed.

Lemma print_responses_emits (rs : list Response.t) :
  emits printing (print_responses rs).
Proof.
  unfold print_responses. emits_walk. unfold print_response. emits_walk.
Qed.

Lemma summarize_requests_emits : emits printing summarize_requests.
Proof.
  unfold summarize_requests.
  repeat first [apply print_requests_emits | emits_step].
Qed.

Lemma summarize_responses_emits : emits printing summarize_responses.
Proof.
  unfold summarize_responses.
  repeat first [apply print_responses_emits | emits_step].
Qed.

Lemma check_container_emits : emits observing (check_container w).
Proof.
  pose proof passive_observing. unfold check_container. emits_walk.
Qed.

Lemma summarize_console_errors_emits :
  emits printing summarize_console_errors.
Proof.
  unfold summarize_console_errors. emits_walk.
Qed.

Lemma summarize_page_errors_emits : emits printing summarize_page_errors.
Proof.
  unfold summarize_page_errors. emits_walk.
Qed.

Lemma inspect_emits : emits observing (inspect w).
Proof.
  unfold inspect.
  repeat first
    [ apply check_script_emits | apply check_iframe_emits
    | apply check_container_emits
    | apply (emits_weaken _ _ _ printing_observing);
      first [ apply summarize_requests_emits
            | apply summarize_responses_emits
            | apply summarize_console_errors_emits
            | apply summarize_page_errors_emits ]
    | emits_step ].
Qed.

Lemma observe_emits : emits observing (observe w).
Proof.
  pose proof passive_observing. unfold observe.
  repeat first [apply inspect_emits | emits_step].
Qed.

Lemma write_report_emits (f : findings) : emits saving (write_report w f).
Proof.
  unfold write_report. emits_walk.
Qed.

Lemma take_screenshot_emits : emits saving (take_screenshot w).
Proof.
  pose proof passive_saving. unfold take_screenshot. emits_walk.
Qed.

Lemma main_path_emits : emits trying (main_path w).
Proof.
  unfold main_path. apply emits_bind; [| intros f; apply emits_bind].
  - eapply emits_weaken; [| apply observe_emits].
    intros e He. unfold trying. now rewrite He.
  - eapply emits_weaken; [| apply write_report_emits].
    intros e He. unfold trying. rewrite He. apply orb_true_r.
  - intros _. eapply emits_weaken; [| apply take_screenshot_emits].
    intros e He. unfold trying. rewrite He. apply orb_true_r.
Qed.

End Blocks.

(* ------------------------------------------------------------------ *)
(** ** The order of the calls *)

Section Ascending.

Lemma increasing_from_weaken (lo lo' : nat) (ls : list nat) :
  lo' <= lo -> increasing_from lo ls = true -> increasing_from lo' ls = true.
Proof.
  destruct ls as [| x ls]; simpl; [reflexivity |].
  intros Hlo H. apply andb_true_iff in H. destruct H as [H1 H2].
  apply Nat.leb_le in H1. rewrite H2, andb_true_r. apply Nat.leb_le. lia.
Qed.

Lemma between_app (lo mid hi : nat) (l1 l2 : list nat) :
  between lo mid l1 -> between mid hi l2 -> between lo hi (l1 ++ l2).
Proof.
  unfold between. revert lo. induction l1 as [| x l1 IH]; simpl; intros lo H1 H2.
  - rewrite andb_true_r in H1. apply Nat.leb_le in H1.
    now apply increasing_from_weaken with (lo := mid).
  - apply andb_true_iff in H1. destruct H1 as [Hx H1].
    rewrite Hx. simpl. now apply IH.
Qed.

Lemma increasing_from_lower (lo : nat) (ls : list nat) :
  increasing_from lo ls = true -> Forall (fun x => lo <= x) ls.
Proof.
  revert lo. induction ls as [| x ls IH]; simpl; intros lo H; constructor.
  - apply andb_true_iff in H. destruct H as [H _]. now apply Nat.leb_le in H.
  - apply andb_true_iff in H. destruct H as [Hx H]. apply Nat.leb_le in Hx.
    apply IH. apply increasing_from_weaken with (lo := S x); [lia | exact H].
Qed.

Lemma increasing_from_NoDup (lo : nat) (ls : list nat) :
  increasing_from lo ls = true -> NoDup ls.
Proof.
  revert lo. induction ls as [| x ls IH]; simpl; intros lo H; constructor.
  - apply andb_true_iff in H. destruct H as [_ H].
    apply increasing_from_lower in H. rewrite Forall_forall in H.
    intros Hin. apply H in Hin. lia.
  - apply andb_true_iff in H. destruct H as [_ H]. now apply IH in H.
Qed.

Lemma increasing_from_prefix (lo : nat) (l1 l2 : list nat) :
  increasing_from lo (l1 ++ l2) = true -> increasing_from lo l1 = true.
Proof.
  revert lo. induction l1 as [| x l1 IH]; simpl; intros lo H; [reflexivity |].
  apply andb_true_iff in H. destruct H as [-> H]. simpl. now apply IH in H.
Qed.

Lemma between_NoDup (lo hi : nat) (ls : list nat) :
  between lo hi ls -> NoDup ls.
Proof.
  intros H. apply increasing_from_prefix in H.
  now apply increasing_from_NoDup in H.
Qed.

Lemma calls_app (t1 t2 : list effect) : calls (t1 ++ t2) = calls t1 ++ calls t2.
Proof. apply flat_map_app. Qed.

Lemma calls_heard (evs : list event) : calls (heard evs) = [].
Proof.
  induction evs as [| [] evs IH]; simpl; auto.
Qed.

Lemma calls_silent (tl : list effect) :
  forallb silent tl = true -> calls tl = [].
Proof.
  induction tl as [| [] tl IH]; simpl; intros H;
    try discriminate; auto.
Qed.

Lemma ascending_silent {A} (lo hi : nat) (m : M A) :
  (lo <=? hi)%nat = true -> emits silent m -> ascending lo hi m.
Proof.
  intros Hlo Hm. eapply sat_conseq; [exact Hm |]. simpl.
  intros _ _ tl [H _]. rewrite calls_silent by exact H.
  unfold between. simpl. now rewrite Hlo.
Qed.

Lemma between_widen (lo mid hi : nat) (ls : list nat) :
  (mid <=? hi)%nat = true -> between lo mid ls -> between lo hi ls.
Proof.
  intros Hhi H. rewrite <- (app_nil_r ls).
  apply between_app with (mid := mid); [exact H |].
  unfold between. simpl. now rewrite Hhi.
Qed.

Lemma ascending_bind {A B} (lo mid hi : nat) (m : M A) (k : A -> M B) :
  (mid <=? hi)%nat = true ->
  ascending lo mid m -> (forall a, ascending mid hi (k a)) ->
  ascending lo hi (bind m k).
Proof.
  intros Hhi Hm Hk. eapply sat_bind; [exact Hm | exact Hk | |]; simpl.
  - intros _ _ t H. now apply between_widen with (mid := mid).
  - intros st a t1 r t2 H1 H2. rewrite calls_app, map_app.
    now apply between_app with (mid := mid).
Qed.

Lemma ascending_invoke {A} (lo hi : nat) (c : call) (r : result A) :
  (lo <=? line_of c)%nat && (S (line_of c) <=? hi)%nat = true ->
  ascending lo hi (invoke c r).
Proof.
  intros H. eapply sat_conseq; [apply sat_invoke |].
  intros _ _ tl [_ ->]. unfold between.
  apply andb_true_iff in H. destruct H as [H1 H2].
  cbn [calls flat_map map app increasing_from]. now rewrite H1, H2.
Qed.

Lemma ascending_await {A} (lo hi : nat) (c : call) (a : awaited A) :
  (lo <=? line_of c)%nat && (S (line_of c) <=? hi)%nat = true ->
  ascending lo hi (await c a).
Proof.
  intros H. eapply sat_conseq; [apply sat_await |].
  intros _ _ tl [_ ->]. unfold between.
  apply andb_true_iff in H. destruct H as [H1 H2].
  change (calls (Call c :: heard (during a)))
    with (c :: calls (heard (during a))).
  rewrite calls_heard. cbn [map app increasing_from]. now rewrite H1, H2.
Qed.

End Ascending.

(** Walks through a block, splitting the range of lines at each call. *)
Ltac ascending_step :=
  lazymatch goal with
  | |- ascending ?lo ?hi (bind (await ?c _) _) =>
      apply (ascending_bind lo (S (line_of c)) hi);
      [reflexivity | apply ascending_await; reflexivity | intros ?]
  | |- ascending ?lo ?hi (bind (invoke ?c _) _) =>
      apply (ascending_bind lo (S (line_of c)) hi);
      [reflexivity | apply ascending_invoke; reflexivity | intros ?]
  | |- ascending ?lo ?hi (bind _ _) =>
      first
        [ apply (ascending_bind lo lo hi);
          [reflexivity
          | apply ascending_silent; [reflexivity | solve [emits_walk]]
          | intros ?]
        | apply (ascending_bind lo hi hi); [reflexivity | | intros ?] ]
  | |- ascending _ _ (await _ _) => apply ascending_await; reflexivity
  | |- ascending _ _ (invoke _ _) => apply ascending_invoke; reflexivity
  | |- ascending _ _ (let _ := _ in _) => cbv zeta
  | |- ascending _ _ (match ?x with _ => _ end) => destruct x
  | |- ascending _ _ _ =>
      apply ascending_silent; [reflexivity | solve [emits_walk]]
  end.

Ltac ascending_walk := repeat ascending_step.

Section Order.

Variable w : world.

Lemma check_script_ascending : ascending 63 93 (check_script w).
Proof. unfold check_script. ascending_walk. Qed.

Lemma check_iframe_ascending : ascending 94 109 (check_iframe w).
Proof. unfold check_iframe. ascending_walk. Qed.

Lemma check_container_ascending : ascending 141 152 (check_container w).
Proof. unfold check_container. ascending_walk. Qed.

Lemma widen_from {A} (lo lo' hi : nat) (m : M A) :
  lo' <= lo -> ascending lo hi m -> ascending lo' hi m.
Proof.
  intros Hlo Hm. eapply sat_conseq; [exact Hm |]. simpl.
  intros _ _ tl H. unfold between in *.
  now apply increasing_from_weaken with (lo := lo).
Qed.

Lemma inspect_ascending : ascending 62 176 (inspect w).
Proof.
  unfold inspect.
  apply (ascending_bind _ 93); [reflexivity | | intros ?].
  { apply (widen_from 63); [lia | apply check_script_ascending]. }
  apply (ascending_bind _ 109); [reflexivity | | intros ?].
  { apply (widen_from 94); [lia | apply check_iframe_ascending]. }
  apply (ascending_bind _ 109); [reflexivity | | intros ?].
  { apply ascending_silent; [reflexivity |].
    apply (emits_weaken _ _ _ printing_silent), summarize_requests_emits. }
  apply (ascending_bind _ 109); [reflexivity | | intros ?].
  { apply ascending_silent; [reflexivity |].
    apply (emits_weaken _ _ _ printing_silent), summarize_responses_emits. }
  apply (ascending_bind _ 152); [reflexivity | | intros ?].
  { apply (widen_from 141); [lia | apply check_container_ascending]. }
  unfold summarize_console_errors, summarize_page_errors. ascending_walk.
Qed.

Lemma observe_ascending : ascending 54 176 (observe w).
Proof.
  unfold observe. repeat first [apply inspect_ascending | ascending_step].
Qed.

Lemma main_path_ascending : ascending 54 203 (main_path w).
Proof.
  unfold main_path.
  apply (ascending_bind _ 176); [reflexivity | apply observe_ascending |].
  intros f. apply (ascending_bind _ 196); [reflexivity | | intros _].
  - unfold write_report. ascending_walk.
  - unfold take_screenshot. ascending_walk.
Qed.

End Order.

(* ------------------------------------------------------------------ *)
(** ** The anatomy of a run *)

Section Anatomy.

Lemma absorb_inj (st : state) (t1 t2 : list effect) :
  absorb st t1 = absorb st t2 -> t1 = t2.
Proof.
  intros H. apply (f_equal trace) in H. simpl in H.
  now apply app_inv_head in H.
Qed.

Lemma sat_and {A} (m : M A) (Q1 Q2 : post A) :
  sat m Q1 -> sat m Q2 -> sat m (fun st r tl => Q1 st r tl /\ Q2 st r tl).
Proof.
  intros H1 H2 st.
  destruct (H1 st) as (r & tl & E & HQ1).
  destruct (H2 st) as (r' & tl' & E' & HQ2).
  rewrite E in E'.
  pose proof (f_equal fst E') as Er. pose proof (f_equal snd E') as Et.
  simpl in Er, Et. apply absorb_inj in Et. subst r' tl'. eauto.
Qed.

Lemma guarded_eq (w : world) (st : state) (r : result unit) (tl : list effect) :
  main_path w st = (r, absorb st tl) ->
  guarded w st =
    (settles r (settled (w_close w)),
     absorb st (tl ++ handler_lines r ++ cleanup w)).
Proof.
  intros E. unfold guarded, try_catch_finally. rewrite E.
  destruct r as [[] | e]; cbv beta iota zeta.
  - rewrite await_eq, absorb_app. now destruct (settled (w_close w)) as [[] |].
  - unfold console_error. rewrite emit_print_eq, await_eq, !absorb_app.
    cbv beta iota zeta. unfold handler_lines, cleanup, settles.
    now destruct (settled (w_close w)) as [[] |].
Qed.

Lemma entered_dec (w : world) : entered w \/ ~ entered w.
Proof.
  unfold entered.
  destruct (w_launch w) as [[] |]; [| right; intros [H _]; discriminate].
  destruct (w_newContext w) as [[] |]; [| right; intros (_ & H & _); discriminate].
  destruct (w_newPage w) as [[] |]; [| right; intros (_ & _ & H); discriminate].
  now left.
Qed.

Lemma setup_entered (w : world) :
  entered w ->
  setup w initial = (Ok tt, absorb initial (map Call (firstn 3 opening))).
Proof.
  intros (H1 & H2 & H3). unfold setup, bind.
  rewrite !invoke_eq, H1, H2, H3, !absorb_app. reflexivity.
Qed.

Lemma setup_failed (w : world) :
  ~ entered w ->
  exists e k, 1 <= k <= 3 /\
    setup w initial = (Throw e, absorb initial (map Call (firstn k opening))).
Proof.
  intros Hn. unfold setup, bind. rewrite invoke_eq.
  destruct (w_launch w) as [[] | e] eqn:E1; [| exists e, 1; split; [lia | reflexivity]].
  rewrite invoke_eq.
  destruct (w_newContext w) as [[] | e] eqn:E2;
    [| exists e, 2; split; [lia | now rewrite absorb_app]].
  rewrite invoke_eq.
  destruct (w_newPage w) as [[] | e] eqn:E3;
    [| exists e, 3; split; [lia | now rewrite !absorb_app]].
  exfalso. apply Hn. now repeat split.
Qed.

(** A run that does not reach the [try]: it stops at the call that threw. *)
Lemma run_failed (w : world) :
  ~ entered w ->
  exists e k, 1 <= k <= 3 /\
    run w = (Throw e, absorb initial (map Call (firstn k opening))).
Proof.
  intros Hn. destruct (setup_failed w Hn) as (e & k & Hk & E).
  exists e, k. split; [exact Hk |].
  unfold run, script, bind. now rewrite E.
Qed.

Lemma at_try_entered (w : world) :
  entered w -> at_try w = absorb initial (map Call (firstn 3 opening)).
Proof.
  intros He. unfold at_try. now rewrite (setup_entered w He).
Qed.

(** A run that reaches the [try]. *)
Lemma run_entered (w : world) :
  entered w ->
  exists r tl,
    main_path w (at_try w) = (r, absorb (at_try w) tl) /\
    (forallb trying tl = true /\ abrupt r tl) /\
    between 54 203 (map line_of (calls tl)) /\
    run w =
      (settles r (settled (w_close w)),
       absorb initial
         (map Call (firstn 3 opening) ++ tl ++ handler_lines r ++ cleanup w)).
Proof.
  intros He.
  pose proof (sat_and _ _ _ (main_path_emits w) (main_path_ascending w)) as H.
  destruct (H (at_try w)) as (r & tl & E & H1 & H2).
  exists r, tl. repeat split; try assumption; try apply H1.
  unfold run, script, bind. rewrite (setup_entered w He).
  rewrite (at_try_entered w He) in E. cbv beta iota.
  rewrite (guarded_eq _ _ _ _ E), absorb_app. reflexivity.
Qed.

End Anatomy.

(* ------------------------------------------------------------------ *)
(** ** The findings and the report *)

Section Findings.

Variable w : world.

Lemma printing_never_throws {A} (r : result A) (tl : list effect) :
  forallb printing tl = true -> abrupt r tl -> exists a, r = Ok a.
Proof.
  intros Hp Ha. destruct r as [a | e]; [now exists a |].
  destruct (Ha e eq_refl) as (pre & c & evs & ->).
  rewrite forallb_app in Hp. apply andb_true_iff in Hp.
  destruct Hp as [_ Hp]. simpl in Hp. discriminate.
Qed.

Lemma requests_in_app (t1 t2 : list effect) :
  requests_in (t1 ++ t2) = requests_in t1 ++ requests_in t2.
Proof. apply flat_map_app. Qed.

Lemma responses_in_app (t1 t2 : list effect) :
  responses_in (t1 ++ t2) = responses_in t1 ++ responses_in t2.
Proof. apply flat_map_app. Qed.

Lemma consoleLogs_in_app (t1 t2 : list effect) :
  consoleLogs_in (t1 ++ t2) = consoleLogs_in t1 ++ consoleLogs_in t2.
Proof. apply flat_map_app. Qed.

Lemma pageErrors_in_app (t1 t2 : list effect) :
  pageErrors_in (t1 ++ t2) = pageErrors_in t1 ++ pageErrors_in t2.
Proof. apply flat_map_app. Qed.

(** Printing leaves no record. *)
Lemma printing_records (tl : list effect) :
  forallb printing tl = true ->
  requests_in tl = [] /\ responses_in tl = [] /\
  consoleLogs_in tl = [] /\ pageErrors_in tl = [].
Proof.
  induction tl as [| [] tl IH]; simpl; intros H; try discriminate; auto.
  apply IH. now destruct l.
Qed.

Lemma summarize_requests_eq (st : state) :
  exists lines,
    summarize_requests st =
      (Ok (filter (fun r => includes (Request.url r) "giscus") (requests st)),
       absorb st (Print ConsoleLogStream LNetworkRequests :: lines)) /\
    forallb printing lines = true.
Proof.
  unfold summarize_requests, bind, console_log, get.
  rewrite emit_print_eq. cbv beta iota zeta.
  replace (requests (absorb st [Print ConsoleLogStream LNetworkRequests]))
    with (requests st) by (simpl; now rewrite app_nil_r).
  destruct (print_requests_emits
              (filter (fun r => includes (Request.url r) "giscus") (requests st))
              (absorb st [Print ConsoleLogStream LNetworkRequests]))
    as (r & tl & E & Hp & Ha).
  rewrite E. destruct (printing_never_throws _ _ Hp Ha) as (a & ->).
  exists tl. unfold ret. now rewrite absorb_app.
Qed.

Lemma summarize_responses_eq (st : state) :
  exists lines,
    summarize_responses st =
      (Ok (filter (fun r => includes (Response.url r) "giscus") (responses st)),
       absorb st (Print ConsoleLogStream LNetworkResponses :: lines)) /\
    forallb printing lines = true.
Proof.
  unfold summarize_responses, bind, console_log, get.
  rewrite emit_print_eq. cbv beta iota zeta.
  replace (responses (absorb st [Print ConsoleLogStream LNetworkResponses]))
    with (responses st) by (simpl; now rewrite app_nil_r).
  destruct (print_responses_emits
              (filter (fun r => includes (Response.url r) "giscus") (responses st))
              (absorb st [Print ConsoleLogStream LNetworkResponses]))
    as (r & tl & E & Hp & Ha).
  rewrite E. destruct (printing_never_throws _ _ Hp Ha) as (a & ->).
  exists tl. unfold ret. now rewrite absorb_app.
Qed.

(** A block that queries the page, describes the element and returns the
    handle returns what the query returned. *)
Lemma query_returns (l : line) (c : call)
    (a : awaited (option elementHandle))
    (body : option elementHandle -> M unit) :
  (forall h, emits observing (body h)) ->
  sat (console_log l ;; h <- await c a ;; body h ;; ret h)
      (fun _ r _ => forall h, r = Ok h -> settled a = Ok h).
Proof.
  intros Hbody st. unfold bind, console_log.
  rewrite emit_print_eq, await_eq, absorb_app.
  destruct (settled a) as [h | e].
  - destruct (Hbody h (absorb st ([Print ConsoleLogStream l] ++ Call c :: heard (during a))))
      as (r & tl & E & _).
    rewrite E, absorb_app. destruct r as [[] | e']; unfold ret.
    + do 2 eexists. split; [reflexivity |]. intros h' Hh'. congruence.
    + do 2 eexists. split; [reflexivity |]. intros h' Hh'. discriminate.
  - do 2 eexists. split; [reflexivity |]. intros h' Hh'. discriminate.
Qed.

Lemma check_script_returns :
  sat (check_script w)
      (fun _ r _ => forall h, r = Ok h -> settled (w_queryScript w) = Ok h).
Proof.
  pose proof passive_observing.
  unfold check_script. apply query_returns. intros h. emits_walk.
Qed.

Lemma check_iframe_returns :
  sat (check_iframe w)
      (fun _ r _ => forall h, r = Ok h -> settled (w_queryIframe w) = Ok h).
Proof.
  pose proof passive_observing.
  unfold check_iframe. apply query_returns. intros h. emits_walk.
Qed.

Lemma learned_later (st : state) (f : findings) (pre tl : list effect) :
  learned w (absorb st pre) f tl -> learned w st f (pre ++ tl).
Proof.
  intros (H1 & H2 & t1 & t2 & -> & H3 & H4). repeat split; try assumption.
  exists (pre ++ t1), t2. rewrite <- app_assoc. split; [reflexivity |].
  rewrite requests_in_app, responses_in_app, !app_assoc. now split.
Qed.

Ltac stop_here :=
  do 2 eexists; split; [reflexivity | intros ? ?; discriminate].

Lemma inspect_findings :
  sat (inspect w) (fun st r tl => forall f, r = Ok f -> learned w st f tl).
Proof.
  intros st. unfold inspect, bind.
  destruct (check_script_returns st) as (r1 & t1 & E1 & H1). rewrite E1.
  destruct r1 as [gs | e]; [| stop_here].
  destruct (check_iframe_returns (absorb st t1)) as (r2 & t2 & E2 & H2).
  rewrite E2, absorb_app. destruct r2 as [gi | e]; [| stop_here].
  destruct (summarize_requests_eq (absorb st (t1 ++ t2))) as (l3 & E3 & P3).
  rewrite E3, absorb_app.
  destruct (summarize_responses_eq
              (absorb st ((t1 ++ t2) ++ Print ConsoleLogStream LNetworkRequests :: l3)))
    as (l4 & E4 & P4).
  rewrite E4, absorb_app.
  match goal with |- context [check_container w ?s] =>
    destruct (check_container_emits w s) as (r5 & t5 & E5 & _) end.
  rewrite E5, absorb_app. destruct r5 as [[] | e]; [| stop_here].
  match goal with |- context [summarize_console_errors ?s] =>
    destruct (summarize_console_errors_emits s) as (r6 & t6 & E6 & _) end.
  rewrite E6, absorb_app. destruct r6 as [[] | e]; [| stop_here].
  match goal with |- context [summarize_page_errors ?s] =>
    destruct (summarize_page_errors_emits s) as (r7 & t7 & E7 & _) end.
  rewrite E7, absorb_app. destruct r7 as [[] | e]; [| stop_here].
  unfold ret. do 2 eexists. split; [reflexivity |].
  intros f Hf. injection Hf as <-. unfold learned. simpl.
  split; [now apply H1 |]. split; [now apply H2 |].
  exists (t1 ++ t2),
    (l3 ++ Print ConsoleLogStream LNetworkResponses :: l4 ++ t5 ++ t6 ++ t7).
  split.
  - rewrite <- ?app_assoc. simpl. now rewrite <- ?app_assoc.
  - split; [reflexivity |].
    rewrite !responses_in_app. simpl.
    destruct (printing_records l3 P3) as (_ & -> & _).
    now rewrite !app_nil_r, app_assoc.
Qed.

Lemma observe_findings :
  sat (observe w) (fun st r tl => forall f, r = Ok f -> learned w st f tl).
Proof.
  intros st. unfold observe, bind, console_log.
  rewrite emit_print_eq, await_eq, absorb_app.
  destruct (settled (w_goto w)) as [[] | e]; [| stop_here].
  rewrite await_eq, absorb_app.
  destruct (settled (w_waitForTimeout w)) as [[] | e]; [| stop_here].
  match goal with |- context [inspect w ?s] =>
    destruct (inspect_findings s) as (r & tl & E & H) end.
  rewrite E, absorb_app. do 2 eexists. split; [reflexivity |].
  intros f Hf. apply learned_later. now apply H.
Qed.

(** The calls of [observe]: the navigation, then the wait, and only then
    the rest. *)
Lemma observe_opening :
  sat (observe w)
      (fun _ r tl => exists j rest,
         calls tl = firstn j (skipn 3 opening) ++ rest /\
         1 <= j <= 2 /\
         Forall (fun c => 61 < line_of c) rest /\
         (j < 2 -> rest = [] /\ exists e, r = Throw e)).
Proof.
  intros st. unfold observe, bind, console_log.
  rewrite emit_print_eq, await_eq, absorb_app.
  destruct (settled (w_goto w)) as [[] | e].
  2: { do 2 eexists. split; [reflexivity |]. exists 1, [].
       simpl. rewrite calls_heard. repeat split; eauto; try lia. }
  rewrite await_eq, absorb_app.
  destruct (settled (w_waitForTimeout w)) as [[] | e].
  2: { do 2 eexists. split; [reflexivity |]. exists 2, [].
       rewrite !calls_app. simpl. rewrite !calls_heard.
       repeat split; auto; try lia. }
  match goal with |- context [inspect w ?s] =>
    destruct (inspect_ascending w s) as (r & tl & E & H) end.
  rewrite E, absorb_app. do 2 eexists. split; [reflexivity |].
  exists 2, (calls tl). rewrite !calls_app. simpl. rewrite !calls_heard.
  repeat split; auto; try lia.
  unfold between in H. apply increasing_from_prefix in H.
  apply increasing_from_lower in H. rewrite Forall_map in H.
  revert H. apply Forall_impl. intros c Hc. lia.
Qed.

Lemma write_report_eq (f : findings) (st : state) :
  write_report w f st =
    (w_writeFileSync w,
     absorb st
       (Call (WriteFileSync report_path (report_of w f st)) ::
        match w_writeFileSync w with
        | Ok _ => [ Created report_path (JsonFile (report_of w f st));
                    Print ConsoleLogStream LReportSaved ]
        | Throw _ => []
        end)).
Proof.
  unfold write_report, bind, get, console_log. cbv beta iota zeta.
  rewrite invoke_eq. fold (report_of w f st).
  destruct (w_writeFileSync w) as [[] | e]; [| reflexivity].
  now rewrite emit_created_eq, emit_print_eq, !absorb_app.
Qed.

Lemma take_screenshot_eq (st : state) :
  take_screenshot w st = (settled (w_screenshot w), absorb st (shot w)).
Proof.
  unfold take_screenshot, bind, console_log, shot. rewrite await_eq.
  destruct (settled (w_screenshot w)) as [[] | e].
  - now rewrite emit_created_eq, emit_print_eq, !absorb_app.
  - now rewrite app_nil_r.
Qed.

(** The [try] block, given the way its first part ends. *)
Lemma main_path_eq (st : state) (ro : result findings) (t1 : list effect) :
  observe w st = (ro, absorb st t1) ->
  main_path w st =
    match ro with
    | Ok f =>
        (saved_result w,
         absorb st (t1 ++ saved w (report_of w f (absorb st t1))))
    | Throw e => (Throw e, absorb st t1)
    end.
Proof.
  intros E. unfold main_path, bind. rewrite E.
  destruct ro as [f | e]; [| reflexivity].
  rewrite write_report_eq, absorb_app. unfold saved, saved_result.
  destruct (w_writeFileSync w) as [[] | e]; [| reflexivity].
  rewrite take_screenshot_eq, absorb_app, <- app_assoc. reflexivity.
Qed.

End Findings.

(* ------------------------------------------------------------------ *)
(** ** A whole run *)

Section Run.

Lemma calls_map_Call (cs : list call) : calls (map Call cs) = cs.
Proof. induction cs; simpl; congruence. Qed.

Lemma files_map_Call (cs : list call) : files (map Call cs) = [].
Proof. induction cs; simpl; congruence. Qed.

Lemma caught_app (t1 t2 : list effect) :
  caught (t1 ++ t2) = caught t1 ++ caught t2.
Proof. apply flat_map_app. Qed.

Lemma files_app (t1 t2 : list effect) :
  files (t1 ++ t2) = files t1 ++ files t2.
Proof. apply flat_map_app. Qed.

Lemma serialized_app (t1 t2 : list effect) :
  serialized (t1 ++ t2) = serialized t1 ++ serialized t2.
Proof. apply flat_map_app. Qed.

Lemma reports_app (t1 t2 : list effect) :
  reports (t1 ++ t2) = reports t1 ++ reports t2.
Proof. apply flat_map_app. Qed.

(** What [observing] excludes. *)
Lemma observing_excludes (tl : list effect) :
  forallb observing tl = true ->
  caught tl = [] /\ files tl = [] /\ reports tl = [] /\ serialized tl = [] /\
  filter is_close (calls tl) = [] /\ Forall fixed_arguments (calls tl) /\
  filter is_save (calls tl) = [].
Proof.
  induction tl as [| e tl IH]; simpl; [now repeat split |].
  intros H. apply andb_true_iff in H. destruct H as [He H].
  destruct (IH H) as (I1 & I2 & I3 & I4 & I5 & I6 & I7).
  destruct e as [[] | | s [] |]; simpl in *; try discriminate;
    repeat split; auto;
    try (constructor; [simpl | exact I6]); auto.
  - apply andb_true_iff in He. destruct He as [He Ht].
    apply andb_true_iff in He. destruct He as [Hu Hw].
    apply String.eqb_eq in Hu, Hw. apply Z.eqb_eq in Ht. now repeat split.
  - now apply Z.eqb_eq in He.
Qed.

Lemma heard_excludes (evs : list event) :
  caught (heard evs) = [] /\ files (heard evs) = [] /\
  reports (heard evs) = [] /\ serialized (heard evs) = [].
Proof.
  induction evs as [| [] evs (I1 & I2 & I3 & I4)]; simpl; auto.
Qed.

(** A run that reaches the [try], in full. *)
Lemma run_anatomy (w : world) :
  entered w ->
  exists ro t1,
    observe w (at_try w) = (ro, absorb (at_try w) t1) /\
    forallb observing t1 = true /\
    abrupt ro t1 /\
    between 54 176 (map line_of (calls t1)) /\
    (forall f, ro = Ok f -> learned w (at_try w) f t1) /\
    (exists j rest,
        calls t1 = firstn j (skipn 3 opening) ++ rest /\ 1 <= j <= 2 /\
        Forall (fun c => 61 < line_of c) rest /\
        (j < 2 -> rest = [] /\ exists e, ro = Throw e)) /\
    main_path w (at_try w) =
      (main_outcome w ro, absorb (at_try w) (main_effects w (at_try w) ro t1)) /\
    run w =
      (settles (main_outcome w ro) (settled (w_close w)),
       absorb initial
         (map Call (firstn 3 opening) ++ main_effects w (at_try w) ro t1 ++
          handler_lines (main_outcome w ro) ++ cleanup w)).
Proof.
  intros He.
  pose proof (sat_and _ _ _ (observe_emits w)
                (sat_and _ _ _ (observe_ascending w)
                   (sat_and _ _ _ (observe_findings w) (observe_opening w))))
    as H.
  destruct (H (at_try w)) as (ro & t1 & E & (H1 & H2) & H3 & H4 & H5).
  exists ro, t1.
  pose proof (main_path_eq w _ _ _ E) as Em.
  assert (Em' : main_path w (at_try w) =
                (main_outcome w ro,
                 absorb (at_try w) (main_effects w (at_try w) ro t1)))
    by now destruct ro.
  do 7 (split; [assumption |]).
  unfold run, script, bind. rewrite (setup_entered w He).
  rewrite (at_try_entered w He) in Em' |- *. cbv beta iota.
  rewrite (guarded_eq _ _ _ _ Em'), absorb_app. reflexivity.
Qed.

(** Every run leaves the arrays holding the records of the events of the
    trace, and nothing else. *)
Lemma script_regular (w : world) (st : state) :
  exists r tl, script w st = (r, absorb st tl).
Proof.
  unfold script, setup, bind. rewrite invoke_eq.
  destruct (w_launch w) as [[] | e]; [| eauto].
  rewrite invoke_eq, absorb_app.
  destruct (w_newContext w) as [[] | e]; [| eauto].
  rewrite invoke_eq, absorb_app.
  destruct (w_newPage w) as [[] | e]; [| eauto].
  match goal with |- context [guarded w ?s] =>
    destruct (main_path_emits w s) as (r & tl & E & _);
    rewrite (guarded_eq _ _ _ _ E), absorb_app end.
  eauto.
Qed.

End Run.

(* ------------------------------------------------------------------ *)
(** ** Properties of a run *)

Lemma trace_final (w : world) (r : result unit) (tl : list effect) :
  run w = (r, absorb initial tl) -> trace (final w) = tl.
Proof.
  intros E. unfold final. now rewrite E.
Qed.

Section Addresses.

Lemma trying_addressed (e : effect) : trying e = true -> addressed e = true.
Proof.
  unfold trying.
  destruct e as [[] | | |path []]; simpl; try reflexivity;
    rewrite ?orb_false_r; auto; discriminate.
Qed.

Lemma passive_addressed : passive addressed.
Proof. intros []; split; reflexivity. Qed.

Lemma addressed_fixed (tl : list effect) :
  forallb addressed tl = true ->
  Forall fixed_arguments (calls tl) /\ Forall fixed_path (files tl).
Proof.
  induction tl as [| e tl IH]; simpl; [now split |].
  intros H. apply andb_true_iff in H. destruct H as [He H].
  destruct (IH H) as [I1 I2].
  destruct e as [c | | | path f]; simpl; auto.
  - split; [| exact I2]. constructor; [| exact I1].
    destruct c; simpl in *; auto.
    + now destruct headless.
    + apply andb_true_iff in He. destruct He as [He Ht].
      apply andb_true_iff in He. destruct He as [Hu Hw].
      apply String.eqb_eq in Hu, Hw. apply Z.eqb_eq in Ht. now repeat split.
    + now apply Z.eqb_eq in He.
    + now apply String.eqb_eq in He.
    + apply andb_true_iff in He. destruct He as [Hp Hf].
      apply String.eqb_eq in Hp. now split.
  - split; [exact I1 |]. constructor; [| exact I2].
    destruct f; unfold fixed_path; simpl in *; now apply String.eqb_eq in He.
Qed.

Lemma trace_addressed (w : world) :
  forallb addressed (trace (final w)) = true.
Proof.
  destruct (entered_dec w) as [He | Hn].
  - destruct (run_entered w He) as (r & tl & _ & [Ht _] & _ & Er).
    rewrite (trace_final _ _ _ Er), !forallb_app.
    assert (forallb addressed tl = true) as ->.
    { rewrite forallb_forall in *. intros e Hin.
      apply trying_addressed. auto. }
    unfold cleanup. simpl forallb.
    rewrite (forallb_heard _ _ passive_addressed).
    now destruct r.
  - destruct (run_failed w Hn) as (e & k & Hk & Er).
    rewrite (trace_final _ _ _ Er).
    assert (k = 1 \/ k = 2 \/ k = 3) as [-> | [-> | ->]] by lia;
      reflexivity.
Qed.

End Addresses.

(** C5.  The script takes no input: the command line is never read, so a
    run is the same whatever it holds; every navigation goes to the one
    hardcoded address, and every file is written at one of the two
    hardcoded paths, the report at the first and the screenshot at the
    second; both paths are absolute. *)
Theorem no_input_hardcoded_url_and_paths :
  forall w : world,
    (forall argv, run (set_argv argv w) = run w) /\
    Forall fixed_arguments (calls (trace (final w))) /\
    Forall fixed_path (files (trace (final w))) /\
    absolute report_path /\ absolute screenshot_path.
Proof.
  intros w. split; [intros argv; reflexivity |].
  destruct (addressed_fixed _ (trace_addressed w)) as [H1 H2].
  repeat split; assumption || reflexivity.
Qed.

(** C6.  Each of the four arrays is only ever appended to, and only by its
    own listener: the listener of an event appends one record to the array
    of that event and leaves the three others as they were; from any state,
    the whole script leaves each array as it was followed by the records of
    the events of its kind received meanwhile; and at the end of a run each
    array holds exactly the records of the events of its kind, in order. *)
Theorem lists_appended_only_by_own_listener :
  (forall (ev : event) (st : state),
      let st' := snd (dispatch ev st) in
      requests st' =
        requests st ++ match ev with EvRequest r => [r] | _ => [] end /\
      responses st' =
        responses st ++ match ev with EvResponse r => [r] | _ => [] end /\
      consoleLogs st' =
        consoleLogs st ++ match ev with EvConsole m => [m] | _ => [] end /\
      pageErrors st' =
        pageErrors st ++ match ev with EvPageError x => [x] | _ => [] end) /\
  (forall (w : world) (st : state),
      exists tl,
        let st' := snd (script w st) in
        trace st' = trace st ++ tl /\
        requests st' = requests st ++ requests_in tl /\
        responses st' = responses st ++ responses_in tl /\
        consoleLogs st' = consoleLogs st ++ consoleLogs_in tl /\
        pageErrors st' = pageErrors st ++ pageErrors_in tl) /\
  (forall w : world,
      requests (final w) = requests_in (trace (final w)) /\
      responses (final w) = responses_in (trace (final w)) /\
      consoleLogs (final w) = consoleLogs_in (trace (final w)) /\
      pageErrors (final w) = pageErrors_in (trace (final w))).
Proof.
  split; [| split].
  - intros ev st. cbv zeta. rewrite dispatch_eq.
    destruct ev; simpl; now rewrite ?app_nil_r.
  - intros w st. destruct (script_regular w st) as (r & tl & E).
    exists tl. cbv zeta. rewrite E. simpl. auto.
  - intros w. destruct (script_regular w initial) as (r & tl & E).
    unfold final, run. rewrite E. simpl. auto.
Qed.

Section Pieces.

Variable w : world.

Lemma calls_saved (rep : Report.t) :
  calls (saved w rep) =
    WriteFileSync report_path rep ::
    match w_writeFileSync w with
    | Ok _ => [Screenshot screenshot_path true]
    | Throw _ => []
    end.
Proof.
  unfold saved, shot. destruct (w_writeFileSync w); [| reflexivity].
  cbn [calls flat_map app]. f_equal.
  change (flat_map
            (fun e : effect => match e with Call c => [c] | _ => [] end))
    with calls.
  rewrite calls_app, calls_heard. now destruct (settled (w_screenshot w)).
Qed.

Lemma files_saved (rep : Report.t) :
  files (saved w rep) =
    match w_writeFileSync w with
    | Ok _ =>
        (report_path, JsonFile rep) ::
        match settled (w_screenshot w) with
        | Ok _ => [(screenshot_path, PngFile)]
        | Throw _ => []
        end
    | Throw _ => []
    end.
Proof.
  unfold saved, shot. destruct (w_writeFileSync w); [| reflexivity].
  cbn [files flat_map app]. f_equal.
  change (flat_map
            (fun e : effect => match e with Created p f => [(p, f)] | _ => [] end))
    with files.
  unfold files at 1. rewrite flat_map_app. fold (files (heard (during (w_screenshot w)))).
  destruct (heard_excludes (during (w_screenshot w))) as (_ & -> & _).
  now destruct (settled (w_screenshot w)).
Qed.

Lemma serialized_saved (rep : Report.t) :
  serialized (saved w rep) = [rep] /\
  reports (saved w rep) =
    match w_writeFileSync w with Ok _ => [rep] | Throw _ => [] end /\
  caught (saved w rep) = [].
Proof.
  unfold saved, shot. destruct (w_writeFileSync w); [| now repeat split].
  unfold serialized, reports, caught. cbn [flat_map app].
  rewrite !flat_map_app.
  destruct (heard_excludes (during (w_screenshot w))) as (H1 & _ & H3 & H4).
  unfold serialized, reports, caught in H1, H3, H4. rewrite H1, H3, H4.
  now destruct (settled (w_screenshot w)).
Qed.

Lemma cleanup_excludes :
  calls (cleanup w) = [Close] /\ files (cleanup w) = [] /\
  caught (cleanup w) = [] /\ serialized (cleanup w) = [] /\
  reports (cleanup w) = [].
Proof.
  unfold cleanup.
  destruct (heard_excludes (during (w_close w))) as (H1 & H2 & H3 & H4).
  pose proof (calls_heard (during (w_close w))) as H5.
  unfold calls, files, caught, serialized, reports in *.
  cbn [flat_map app]. now rewrite H1, H2, H3, H4, H5.
Qed.

Lemma handler_excludes (r : result unit) :
  calls (handler_lines r) = [] /\ files (handler_lines r) = [] /\
  serialized (handler_lines r) = [] /\ reports (handler_lines r) = [] /\
  caught (handler_lines r) = match r with Throw e => [e] | Ok _ => [] end.
Proof. destruct r; now repeat split. Qed.

Lemma main_result_eq (ro : result findings) (t1 tl : list effect) :
  main_path w (at_try w) = (main_outcome w ro, absorb (at_try w) tl) ->
  main_result w = main_outcome w ro /\
  trace (snd (main_path w (at_try w))) = trace (at_try w) ++ tl.
Proof.
  intros E. unfold main_result. now rewrite E.
Qed.

End Pieces.

(** The calls of a run that reaches the [try]: the three of the setup, those
    of the first part of the [try] block, those of the second part when the
    first succeeds, and [browser.close()]. *)
Lemma calls_entered (w : world) :
  entered w ->
  exists ro t1 later,
    observed w = ro /\
    later = match ro with
            | Ok f => calls (saved w (report_of w f (absorb (at_try w) t1)))
            | Throw _ => []
            end /\
    between 54 176 (map line_of (calls t1)) /\
    (exists j rest,
        calls t1 = firstn j (skipn 3 opening) ++ rest /\ 1 <= j <= 2 /\
        Forall (fun c => 61 < line_of c) rest /\
        (j < 2 -> rest = [] /\ exists e, ro = Throw e)) /\
    calls (trace (final w)) = firstn 3 opening ++ calls t1 ++ later ++ [Close].
Proof.
  intros He.
  destruct (run_anatomy w He) as (ro & t1 & E & _ & _ & Hb & _ & Ho & _ & Er).
  exists ro, t1. eexists. split; [unfold observed; now rewrite E |].
  split; [reflexivity |]. split; [exact Hb |]. split; [exact Ho |].
  rewrite (trace_final _ _ _ Er), !calls_app, calls_map_Call.
  destruct (handler_excludes (main_outcome w ro)) as (-> & _).
  destruct (cleanup_excludes w) as (-> & _).
  f_equal. destruct ro as [f | e]; simpl main_effects.
  - now rewrite calls_app, <- app_assoc.
  - reflexivity.
Qed.

(** The calls of any run, in order. *)
Lemma calls_in_order (w : world) :
  between 4 207 (map line_of (calls (trace (final w)))) /\
  exists k rest,
    calls (trace (final w)) = firstn k opening ++ rest /\
    1 <= k <= 5 /\
    Forall (fun c => 61 < line_of c) rest /\
    (k < 5 -> rest = [] \/ rest = [Close]).
Proof.
  destruct (entered_dec w) as [He | Hn].
  - destruct (calls_entered w He)
      as (ro & t1 & later & _ & Hl & Hb & (j & rest & Hc & Hj & Hr & Hs) & ->).
    assert (Hlater : between 176 203 (map line_of later) /\
                     Forall (fun c => 61 < line_of c) later).
    { subst later. destruct ro as [f | e].
      - rewrite calls_saved. destruct (w_writeFileSync w).
        + split; [reflexivity | repeat constructor; simpl; lia].
        + split; [reflexivity | repeat constructor; simpl; lia].
      - split; [reflexivity | constructor]. }
    destruct Hlater as [Hlb Hlf]. split.
    + rewrite !map_app.
      apply between_app with (mid := 54); [reflexivity |].
      apply between_app with (mid := 176); [exact Hb |].
      apply between_app with (mid := 203); [exact Hlb | reflexivity].
    + exists (3 + j), (rest ++ later ++ [Close]). split; [| split; [lia | split]].
      * rewrite Hc, <- !app_assoc.
        assert (j = 1 \/ j = 2) as [-> | ->] by lia; reflexivity.
      * rewrite !Forall_app. split; [exact Hr | split; [exact Hlf |]].
        constructor; [simpl; lia | constructor].
      * intros Hk. right. destruct Hs as (-> & e & ->); [lia |].
        now subst later.
  - destruct (run_failed w Hn) as (e & k & Hk & Er).
    rewrite (trace_final _ _ _ Er), calls_map_Call. split.
    + assert (k = 1 \/ k = 2 \/ k = 3) as [-> | [-> | ->]] by lia;
        reflexivity.
    + exists k, []. rewrite app_nil_r. repeat split; auto; lia.
Qed.

Lemma calls_NoDup (w : world) : NoDup (calls (trace (final w))).
Proof.
  destruct (calls_in_order w) as [Hb _].
  apply between_NoDup in Hb. now apply NoDup_map_inv in Hb.
Qed.

Section Steps.

Lemma until_throw_app (s1 s2 : list (call * bool)) :
  until_throw (s1 ++ s2) =
    until_throw s1 ++ (if forallb snd s1 then until_throw s2 else []).
Proof.
  induction s1 as [| [c b] s1 IH]; [reflexivity |]. simpl.
  destruct b; simpl; [now rewrite IH | reflexivity].
Qed.

Lemma until_throw_all (s : list (call * bool)) :
  forallb snd s = true -> until_throw s = map fst s.
Proof.
  induction s as [| [c b] s IH]; [reflexivity |]. simpl. intros H.
  apply andb_true_iff in H. destruct H as [-> H]. now rewrite IH.
Qed.

Lemma queries_of_steps (w : world) :
  filter is_query (map fst (query_steps w)) =
    [Query script_selector; Query iframe_selector; Query container_selector].
Proof.
  unfold query_steps, script_steps, iframe_steps, container_steps, when_found.
  destruct (returned_handle (w_queryScript w));
    destruct (returned_handle (w_queryIframe w));
    destruct (returned_handle (w_queryContainer w)); reflexivity.
Qed.

Lemma performs_ret {A} (a : A) : performs [] (ret a).
Proof.
  eapply sat_conseq; [apply sat_ret |]. intros ? ? ? [-> ->]. now split.
Qed.

Lemma performs_get {A} (f : state -> A) : performs [] (get f).
Proof.
  eapply sat_conseq; [apply sat_get |]. intros ? ? ? [-> ->]. now split.
Qed.

Lemma performs_bind {A B} (s1 s2 : list (call * bool)) (m : M A)
    (k : A -> M B) :
  performs s1 m -> (forall a, performs s2 (k a)) ->
  performs (s1 ++ s2) (bind m k).
Proof.
  intros Hm Hk. eapply sat_bind; [exact Hm | exact Hk | |]; simpl.
  - intros _ e t [Hc Hr]. rewrite until_throw_app, forallb_app, <- Hr.
    simpl. now rewrite app_nil_r.
  - intros _ a t1 r t2 [Hc1 Hr1] [Hc2 Hr2].
    rewrite calls_app, until_throw_app, forallb_app, <- Hr1, Hc1, Hc2.
    now split.
Qed.

(** A part that makes no call, then the steps. *)
Lemma performs_after {A B} (s : list (call * bool)) (m : M A) (k : A -> M B) :
  performs [] m -> (forall a, performs s (k a)) -> performs s (bind m k).
Proof. intros Hm Hk. exact (performs_bind [] s m k Hm Hk). Qed.

(** The steps, then a part that makes no call. *)
Lemma performs_before {A B} (s : list (call * bool)) (m : M A) (k : A -> M B) :
  performs s m -> (forall a, performs [] (k a)) -> performs s (bind m k).
Proof.
  intros Hm Hk. pose proof (performs_bind s [] m k Hm Hk) as H.
  now rewrite app_nil_r in H.
Qed.

(** A block that only prints makes no call and returns. *)
Lemma performs_printing {A} (m : M A) : emits printing m -> performs [] m.
Proof.
  intros Hm. eapply sat_conseq; [exact Hm |]. simpl.
  intros _ r tl [Hp Ha]. split.
  - apply calls_silent. rewrite forallb_forall in *.
    intros e He. now apply printing_silent, Hp.
  - now destruct (printing_never_throws r tl Hp Ha) as [a ->].
Qed.

Lemma performs_console_log (l : line) :
  printing (Print ConsoleLogStream l) = true -> performs [] (console_log l).
Proof. intros H. apply performs_printing, emits_console_log, H. Qed.

Lemma performs_invoke {A} (c : call) (r : result A) :
  performs [(c, returns r)] (invoke c r).
Proof.
  eapply sat_conseq; [apply sat_invoke |]. intros st r' tl [-> ->].
  split; [simpl; now destruct (returns r) | simpl; now rewrite andb_true_r].
Qed.

(** An awaited call, then what follows when it returns. *)
Lemma performs_await {A B} (c : call) (a : awaited A) (k : A -> M B)
    (s : list (call * bool)) :
  (forall x, settled a = Ok x -> performs s (k x)) ->
  performs ((c, returns (settled a)) :: s) (bind (await c a) k).
Proof.
  intros Hk st. unfold bind. rewrite await_eq.
  destruct (settled a) as [x | e] eqn:E.
  - destruct (Hk x eq_refl (absorb st (Call c :: heard (during a))))
      as (r & tl & E2 & Hc & Hr).
    exists r, ((Call c :: heard (during a)) ++ tl).
    rewrite E2, absorb_app. split; [reflexivity |].
    rewrite calls_app. cbn [calls flat_map app].
    change (flat_map
              (fun e : effect => match e with Call c => [c] | _ => [] end))
      with calls.
    rewrite calls_heard. simpl. now rewrite Hc, Hr.
  - exists (Throw e), (Call c :: heard (during a)).
    split; [reflexivity |]. cbn [calls flat_map app].
    change (flat_map
              (fun e : effect => match e with Call c => [c] | _ => [] end))
      with calls.
    now rewrite calls_heard.
Qed.

Variable w : world.

Lemma setup_performs : performs (setup_steps w) (setup w).
Proof.
  unfold setup, setup_steps.
  apply (performs_bind [_] [_; _]); [apply performs_invoke | intros _].
  apply (performs_bind [_] [_]); [apply performs_invoke | intros _].
  apply performs_invoke.
Qed.

Lemma check_script_performs : performs (script_steps w) (check_script w).
Proof.
  unfold check_script, script_steps.
  apply performs_after; [now apply performs_console_log | intros _].
  apply performs_await. intros [h |] Hq;
    unfold when_found, returned_handle; rewrite Hq.
  - apply performs_before; [| intros _; apply performs_ret].
    apply performs_await. intros src _.
    apply performs_after; [now apply performs_console_log | intros _].
    apply performs_await. intros getAttribute _.
    apply performs_printing. emits_walk.
  - apply performs_before; [| intros _; apply performs_ret].
    now apply performs_console_log.
Qed.

Lemma check_iframe_performs : performs (iframe_steps w) (check_iframe w).
Proof.
  unfold check_iframe, iframe_steps.
  apply performs_after; [now apply performs_console_log | intros _].
  apply performs_await. intros [h |] Hq;
    unfold when_found, returned_handle; rewrite Hq.
  - apply performs_before; [| intros _; apply performs_ret].
    apply performs_await. intros src _.
    apply performs_printing. emits_walk.
  - apply performs_before; [| intros _; apply performs_ret].
    now apply performs_console_log.
Qed.

Lemma check_container_performs :
  performs (container_steps w) (check_container w).
Proof.
  unfold check_container, container_steps.
  apply performs_after; [now apply performs_console_log | intros _].
  apply performs_await. intros [h |] Hq;
    unfold when_found, returned_handle; rewrite Hq.
  - apply performs_await. intros html _.
    apply performs_printing. emits_walk.
  - now apply performs_console_log.
Qed.

Lemma inspect_performs : performs (query_steps w) (inspect w).
Proof.
  unfold inspect, query_steps.
  apply performs_bind; [apply check_script_performs | intros ?].
  apply performs_bind; [apply check_iframe_performs | intros ?].
  apply performs_after;
    [apply performs_printing, summarize_requests_emits | intros ?].
  apply performs_after;
    [apply performs_printing, summarize_responses_emits | intros ?].
  apply performs_before; [apply check_container_performs | intros _].
  apply performs_after;
    [apply performs_printing, summarize_console_errors_emits | intros _].
  apply performs_after;
    [apply performs_printing, summarize_page_errors_emits | intros _].
  apply performs_ret.
Qed.

Lemma observe_performs :
  performs (visit_steps w ++ query_steps w) (observe w).
Proof.
  unfold observe, visit_steps.
  apply performs_after; [now apply performs_console_log | intros _].
  apply performs_await. intros _ _.
  apply performs_await. intros _ _.
  apply inspect_performs.
Qed.

Lemma calls_saved_steps (rep : Report.t) :
  calls (saved w rep) = until_throw (save_steps w rep).
Proof.
  rewrite calls_saved. unfold save_steps. simpl.
  destruct (w_writeFileSync w); [| reflexivity].
  now destruct (settled (w_screenshot w)).
Qed.

(** The calls of a run are the linear sequence of its world. *)
Lemma calls_linear_sequence :
  exists rep, calls (trace (final w)) = linear_sequence w rep.
Proof.
  destruct (entered_dec w) as [He | Hn].
  - destruct (run_anatomy w He) as (ro & t1 & E & _ & _ & _ & _ & _ & _ & Er).
    destruct (observe_performs (at_try w)) as (r & tl & E' & Hc & Hr).
    rewrite E in E'.
    assert (Hro : ro = r) by exact (f_equal fst E').
    assert (Htl : t1 = tl)
      by (apply (absorb_inj (at_try w)); exact (f_equal snd E')).
    subst r tl. clear E'.
    exists (match ro with
            | Ok f => report_of w f (absorb (at_try w) t1)
            | Throw _ => report_of w (mkFindings None None [] []) initial
            end).
    rewrite (trace_final _ _ _ Er), !calls_app, calls_map_Call.
    destruct (handler_excludes (main_outcome w ro)) as (-> & _).
    destruct (cleanup_excludes w) as (-> & _).
    unfold linear_sequence, setup_steps. destruct He as (-> & -> & ->).
    cbn [until_throw forallb snd returns andb firstn opening app].
    do 3 f_equal. f_equal.
    rewrite app_assoc, until_throw_app, <- Hr, <- Hc.
    destruct ro as [f | e]; simpl main_effects.
    + now rewrite calls_app, calls_saved_steps.
    + simpl. now rewrite app_nil_r.
  - exists (report_of w (mkFindings None None [] []) initial).
    unfold final, run, script, setup, bind, linear_sequence, setup_steps.
    rewrite invoke_eq.
    destruct (w_launch w) as [[] | e] eqn:E1; [| reflexivity].
    rewrite invoke_eq.
    destruct (w_newContext w) as [[] | e] eqn:E2; [| reflexivity].
    rewrite invoke_eq.
    destruct (w_newPage w) as [[] | e] eqn:E3; [| reflexivity].
    exfalso. apply Hn. now repeat split.
Qed.

End Steps.

(** C7.  The calls of a run are made in the order of the lines of the
    script, each line at most once: no call is repeated.  They start with a
    prefix of the launch, the new context, the new page, the navigation to
    the fixed address and the wait of 5000 ms, each once, and everything
    else comes only after all five; a run that stops within the five makes
    no other call than, once the page exists, closing the browser; so a
    run that queries the page has made all five before, in that order.

    And the calls are made: the calls of a run are exactly the linear
    sequence of its world, that is the steps of the setup and, once the
    page exists, the navigation, the wait, the three queries with the reads
    of the elements found, the report and the screenshot, up to the first
    step that throws, and then [browser.close()].  So a run whose page
    exists navigates; a run whose navigation and wait return queries the
    page; and a run in which nothing throws makes the five opening calls,
    the three queries in order with their reads, the two saving calls and
    the closing call. *)
Theorem single_linear_sequence :
  forall w : world,
    let cs := calls (trace (final w)) in
    between 4 207 (map line_of cs) /\
    NoDup cs /\
    (exists k rest,
        cs = firstn k opening ++ rest /\
        1 <= k <= 5 /\
        Forall (fun c => 61 < line_of c) rest /\
        (k < 5 -> rest = [] \/ rest = [Close])) /\
    (forall selector,
        In (Query selector) cs -> exists rest, cs = opening ++ rest) /\
    (exists rep, cs = linear_sequence w rep) /\
    (forallb snd (setup_steps w) = true ->
     exists rest, cs = firstn 4 opening ++ rest ++ [Close]) /\
    (forallb snd (setup_steps w ++ visit_steps w) = true ->
     exists rest, cs = opening ++ Query script_selector :: rest ++ [Close]) /\
    (unfailing w = true ->
     (exists rep,
         cs = opening ++ map fst (query_steps w) ++
              [ WriteFileSync report_path rep;
                Screenshot screenshot_path true; Close ]) /\
     filter is_query cs =
       [Query script_selector; Query iframe_selector; Query container_selector]).
Proof.
  intros w. cbv zeta. destruct (calls_in_order w) as [Hb Hk].
  split; [exact Hb |]. split; [apply calls_NoDup |]. split; [exact Hk |].
  split.
  { intros selector Hin. destruct Hk as (k & rest & Hcs & Hk & _ & Hshort).
    rewrite Hcs in Hin |- *.
    assert (k = 5 \/ k < 5) as [-> | Hlt] by lia; [now exists rest |].
    exfalso. apply in_app_or in Hin. destruct Hin as [Hin | Hin].
    - assert (k = 1 \/ k = 2 \/ k = 3 \/ k = 4) as [-> | [-> | [-> | ->]]]
        by lia; simpl in Hin;
        repeat (destruct Hin as [Hin | Hin]; [discriminate |]); exact Hin.
    - destruct (Hshort Hlt) as [-> | ->]; simpl in Hin.
      + exact Hin.
      + destruct Hin as [Hin | []]. discriminate. }
  clear Hb Hk. destruct (calls_linear_sequence w) as (rep & Hcs).
  split; [now exists rep |]. rewrite Hcs. unfold linear_sequence.
  split; [| split].
  - intros Hs. rewrite Hs, (until_throw_all _ Hs).
    unfold visit_steps. cbn [app until_throw].
    eexists. cbn [setup_steps map fst firstn opening app]. reflexivity.
  - intros Hs. rewrite forallb_app in Hs. apply andb_true_iff in Hs.
    destruct Hs as [Hs Hv].
    rewrite Hs, (until_throw_all _ Hs), until_throw_app, Hv,
      (until_throw_all _ Hv).
    unfold query_steps, script_steps. cbn [app until_throw].
    eexists. cbn [setup_steps visit_steps map fst opening app]. reflexivity.
  - unfold unfailing. intros Hu.
    apply andb_true_iff in Hu. destruct Hu as [Hu _].
    apply andb_true_iff in Hu. destruct Hu as [Hu Hshot].
    apply andb_true_iff in Hu. destruct Hu as [Hu Hwrite].
    apply andb_true_iff in Hu. destruct Hu as [Hu Hquery].
    apply andb_true_iff in Hu. destruct Hu as [Hu Hvisit].
    assert (Hsave : forallb snd (save_steps w rep) = true)
      by (unfold save_steps; simpl; now rewrite Hwrite, Hshot).
    assert (Hall : forallb snd (visit_steps w ++ query_steps w ++
                                save_steps w rep) = true)
      by (rewrite !forallb_app, Hvisit, Hquery, Hsave; reflexivity).
    rewrite Hu, (until_throw_all _ Hu), (until_throw_all _ Hall).
    rewrite !map_app.
    assert (E : map fst (setup_steps w) ++
                (map fst (visit_steps w) ++ map fst (query_steps w) ++
                 map fst (save_steps w rep)) ++ [Close] =
                opening ++ map fst (query_steps w) ++
                [ WriteFileSync report_path rep;
                  Screenshot screenshot_path true; Close ]).
    { cbn [setup_steps visit_steps save_steps map fst opening app].
      do 5 f_equal. now rewrite <- app_assoc. }
    rewrite E. split; [now exists rep |].
    rewrite !filter_app, queries_of_steps. reflexivity.
Qed.

(** In the run [w_happy] nothing throws and the three elements are found:
    fifteen calls. *)
Lemma single_linear_sequence_witness :
  exists rep,
    calls (trace (final w_happy)) =
      [ Launch false; NewContext; NewPage;
        Goto target_url "networkidle" 30000; WaitForTimeout 5000;
        Query script_selector; GetAttribute ElScript "src"; Evaluate ElScript;
        Query iframe_selector; GetAttribute ElIframe "src";
        Query container_selector; InnerHTML ElContainer;
        WriteFileSync report_path rep; Screenshot screenshot_path true;
        Close ].
Proof.
  destruct (single_linear_sequence w_happy)
    as (_ & _ & _ & _ & _ & _ & _ & H).
  destruct (H eq_refl) as [(rep & E) _]. exists rep. exact E.
Defined.

(* ------------------------------------------------------------------ *)
(** ** The [catch] and [finally] clauses *)

(** C1, as stated, fails: in the run [w_no_context] an operation of the
    script throws, the [catch] clause logs nothing, and the browser that
    was launched is never closed. *)
Lemma setup_failure_neither_caught_nor_closed :
  outcome w_no_context = Throw "browser has been closed" /\
  calls (trace (final w_no_context)) = [Launch false; NewContext] /\
  caught (trace (final w_no_context)) = [] /\
  ~ In Close (calls (trace (final w_no_context))).
Proof.
  repeat split; try reflexivity.
  vm_compute. intros [H | [H | []]]; discriminate.
Qed.

(** C1, amended.  In every run that reaches the [try] statement: the trace
    is the effects of the [try] block, then the line of the [catch] clause
    when the block threw, then [browser.close()] and what the listeners do
    while it is pending; the [catch] clause logs the thrown error, once, and
    logs nothing when the block completes; and the browser is closed exactly
    once. *)
Theorem try_failure_logged_once_browser_closed :
  forall w : world,
    entered w ->
    trace (final w) =
      trace (snd (main_path w (at_try w))) ++
      handler_lines (main_result w) ++
      Call Close :: heard (during (w_close w)) /\
    caught (trace (final w)) =
      match main_result w with
      | Throw e => [e]
      | Ok _ => []
      end /\
    filter is_close (calls (trace (final w))) = [Close].
Proof.
  intros w He.
  destruct (run_anatomy w He) as (ro & t1 & E & Ho & _ & _ & _ & _ & Em & Er).
  destruct (main_result_eq w ro t1 _ Em) as [-> ->].
  rewrite (trace_final _ _ _ Er).
  replace (trace (at_try w)) with (map Call (firstn 3 opening))
    by now rewrite (at_try_entered w He).
  split; [now rewrite <- app_assoc |].
  destruct (observing_excludes t1 Ho) as (C1 & _ & _ & _ & C5 & _).
  destruct (handler_excludes (main_outcome w ro)) as (Hc & _ & _ & _ & Hk).
  destruct (cleanup_excludes w) as (Kc & _ & Kk & _).
  assert (Hmain : caught (main_effects w (at_try w) ro t1) = [] /\
                  filter is_close (calls (main_effects w (at_try w) ro t1)) = []).
  { destruct ro as [f | e]; simpl main_effects; [| now split].
    rewrite caught_app, calls_app, filter_app, C1, C5.
    destruct (serialized_saved w (report_of w f (absorb (at_try w) t1)))
      as (_ & _ & ->).
    rewrite calls_saved. split; [reflexivity |].
    now destruct (w_writeFileSync w). }
  destruct Hmain as [M1 M2]. split.
  - rewrite !caught_app, M1, Hk, Kk. simpl. now rewrite app_nil_r.
  - rewrite !calls_app, !filter_app, M2, Hc, Kc, calls_map_Call. reflexivity.
Qed.

(** The run [w_server_down] reaches the [try]; [page.goto] throws, the error
    is logged once and the browser is closed once. *)
Lemma try_failure_logged_once_browser_closed_witness :
  entered w_server_down /\
  caught (trace (final w_server_down)) = ["net::ERR_CONNECTION_REFUSED"] /\
  filter is_close (calls (trace (final w_server_down))) = [Close].
Proof.
  assert (He : entered w_server_down) by (repeat split).
  split; [exact He |].
  destruct (try_failure_logged_once_browser_closed w_server_down He)
    as (_ & Hc & Hk).
  split; [exact Hc | exact Hk].
Defined.

(* ------------------------------------------------------------------ *)
(** ** The two files *)

(** C4.  In every run whose [try] block completes without throwing, the
    files written are exactly two, the JSON report at its path and then the
    PNG screenshot at its path, and the report is handed to
    [fs.writeFileSync] before the screenshot is requested. *)
Theorem completed_run_writes_report_then_screenshot :
  forall w : world,
    entered w ->
    main_result w = Ok tt ->
    exists rep,
      files (trace (final w)) =
        [(report_path, JsonFile rep); (screenshot_path, PngFile)] /\
      filter is_save (calls (trace (final w))) =
        [WriteFileSync report_path rep; Screenshot screenshot_path true].
Proof.
  intros w He Hr.
  destruct (run_anatomy w He) as (ro & t1 & E & Ho & _ & _ & _ & _ & Em & Er).
  destruct (main_result_eq w ro t1 _ Em) as [Hm _]. rewrite Hm in Hr.
  destruct ro as [f | e]; [| discriminate]. simpl in Hr. unfold saved_result in Hr.
  exists (report_of w f (absorb (at_try w) t1)).
  rewrite (trace_final _ _ _ Er). simpl main_effects.
  destruct (observing_excludes t1 Ho) as (_ & F1 & _ & _ & _ & _ & S1).
  destruct (handler_excludes (main_outcome w (Ok f))) as (Hc & Hf & _).
  destruct (cleanup_excludes w) as (Kc & Kf & _).
  rewrite !files_app, !calls_app, !filter_app, files_map_Call, calls_map_Call.
  rewrite F1, S1, Hc, Hf, Kc, Kf, files_saved, calls_saved.
  destruct (w_writeFileSync w) as [[] | e]; [| discriminate].
  rewrite Hr. split; reflexivity.
Qed.

(** The run [w_happy] completes and writes the two files. *)
Lemma completed_run_writes_report_then_screenshot_witness :
  exists rep,
    files (trace (final w_happy)) =
      [(report_path, JsonFile rep); (screenshot_path, PngFile)] /\
    filter is_save (calls (trace (final w_happy))) =
      [WriteFileSync report_path rep; Screenshot screenshot_path true].
Proof.
  apply (completed_run_writes_report_then_screenshot w_happy).
  - repeat split.
  - reflexivity.
Defined.

(** C8.  When an operation throws before the report is written, no file is
    written and neither [fs.writeFileSync] nor [page.screenshot] is called;
    no call is made twice; and the call that threw is the last step of the
    main path: after it the trace holds only what the listeners did while
    it was pending and, when the [try] was reached, the [catch] line and
    the closing of the browser. *)
Theorem failure_before_write_skips_the_rest :
  forall (w : world) (e : exn),
    throws_before_write w e ->
    files (trace (final w)) = [] /\
    filter is_save (calls (trace (final w))) = [] /\
    NoDup (calls (trace (final w))) /\
    exists pre c evs,
      trace (final w) = pre ++ Call c :: heard evs ++ aftermath w e.
Proof.
  intros w e H.
  split; [| split; [| split; [apply calls_NoDup |]]].
  - destruct H as [Hs | [He Ho]].
    + assert (Hn : ~ entered w).
      { intros He. rewrite (setup_entered w He) in Hs. discriminate. }
      destruct (run_failed w Hn) as (e' & k & Hk & Er).
      rewrite (trace_final _ _ _ Er). apply files_map_Call.
    + destruct (run_anatomy w He) as (ro & t1 & E & Hobs & _ & _ & _ & _ & _ & Er).
      unfold observed in Ho. rewrite E in Ho. simpl in Ho. subst ro.
      rewrite (trace_final _ _ _ Er). simpl main_effects.
      destruct (observing_excludes t1 Hobs) as (_ & F1 & _).
      destruct (cleanup_excludes w) as (_ & Kf & _).
      now rewrite !files_app, files_map_Call, F1, Kf.
  - destruct H as [Hs | [He Ho]].
    + assert (Hn : ~ entered w).
      { intros He. rewrite (setup_entered w He) in Hs. discriminate. }
      destruct (run_failed w Hn) as (e' & k & Hk & Er).
      rewrite (trace_final _ _ _ Er), calls_map_Call.
      assert (k = 1 \/ k = 2 \/ k = 3) as [-> | [-> | ->]] by lia;
        reflexivity.
    + destruct (run_anatomy w He) as (ro & t1 & E & Hobs & _ & _ & _ & _ & _ & Er).
      unfold observed in Ho. rewrite E in Ho. simpl in Ho. subst ro.
      rewrite (trace_final _ _ _ Er). simpl main_effects.
      destruct (observing_excludes t1 Hobs) as (_ & _ & _ & _ & _ & _ & S1).
      destruct (cleanup_excludes w) as (Kc & _).
      now rewrite !calls_app, !filter_app, calls_map_Call, S1, Kc.
  - unfold aftermath. destruct H as [Hs | [He Ho]].
    + assert (Hn : ~ entered w).
      { intros He. rewrite (setup_entered w He) in Hs. discriminate. }
      destruct (setup_failed w Hn) as (e' & k & Hk & Es).
      assert (Er : run w = (Throw e', absorb initial (map Call (firstn k opening)))).
      { unfold run, script, bind. now rewrite Es. }
      rewrite (trace_final _ _ _ Er), Es. simpl fst. cbv iota.
      assert (k = 1 \/ k = 2 \/ k = 3) as [-> | [-> | ->]] by lia.
      * now exists [], (Launch false), [].
      * now exists [Call (Launch false)], NewContext, [].
      * now exists [Call (Launch false); Call NewContext], NewPage, [].
    + destruct (run_anatomy w He) as (ro & t1 & E & _ & Ha & _ & _ & _ & _ & Er).
      unfold observed in Ho. rewrite E in Ho. simpl in Ho. subst ro.
      rewrite (trace_final _ _ _ Er), (setup_entered w He).
      simpl fst. cbv iota. simpl main_effects. simpl handler_lines.
      destruct (Ha e eq_refl) as (pre & c & evs & ->).
      exists (map Call (firstn 3 opening) ++ pre), c, evs.
      unfold cleanup. rewrite <- !app_assoc. reflexivity.
Qed.

(** In the run [w_server_down] the navigation throws: nothing is written. *)
Lemma failure_before_write_skips_the_rest_witness :
  files (trace (final w_server_down)) = [] /\
  filter is_save (calls (trace (final w_server_down))) = [] /\
  NoDup (calls (trace (final w_server_down))) /\
  exists pre c evs,
    trace (final w_server_down) =
      pre ++ Call c :: heard evs ++
      aftermath w_server_down "net::ERR_CONNECTION_REFUSED".
Proof.
  apply (failure_before_write_skips_the_rest
           w_server_down "net::ERR_CONNECTION_REFUSED").
  right. split; [repeat split | reflexivity].
Defined.

(* ------------------------------------------------------------------ *)
(** ** The contents of the report *)

Section Substring.

Lemma prefix_spec (p s : string) :
  String.prefix p s = true <-> exists rest, s = (p ++ rest)%string.
Proof.
  revert s. induction p as [| a p IH]; intros s.
  - split; [intros _; now exists s | now destruct s].
  - destruct s as [| b s]; simpl;
      [split; [discriminate | intros [r Hr]; discriminate] |].
    destruct (ascii_dec a b) as [-> | Hab].
    + rewrite IH. split; intros [r Hr]; exists r; [now rewrite Hr | now injection Hr].
    + split; [discriminate |]. intros [r Hr]. injection Hr as Hb _. congruence.
Qed.

Lemma includes_unfold (s sub : string) :
  includes s sub =
    if String.prefix sub s then true
    else match s with
         | EmptyString => false
         | String _ s' => includes s' sub
         end.
Proof. now destruct s. Qed.

(** [includes s sub] holds exactly when [sub] is a substring of [s]. *)
Lemma includes_spec (s sub : string) :
  includes s sub = true <-> exists a b, s = (a ++ sub ++ b)%string.
Proof.
  split.
  - induction s as [| c s IH]; rewrite includes_unfold;
      destruct (String.prefix sub _) eqn:Ep.
    + intros _. apply prefix_spec in Ep. destruct Ep as [r Hr].
      now exists EmptyString, r.
    + discriminate.
    + intros _. apply prefix_spec in Ep. destruct Ep as [r Hr].
      now exists EmptyString, r.
    + intros H. destruct (IH H) as (a & b & ->). now exists (String c a), b.
  - intros (a & b & ->). induction a as [| c a IH]; rewrite includes_unfold.
    + assert (String.prefix sub (EmptyString ++ sub ++ b)%string = true) as ->
        by (apply prefix_spec; now exists b).
      reflexivity.
    + destruct (String.prefix sub _); [reflexivity | exact IH].
Qed.

End Substring.

Section Report.

Variable w : world.

Lemma serialized_map_Call_opening (k : nat) :
  1 <= k <= 3 ->
  serialized (map Call (firstn k opening)) = [] /\
  reports (map Call (firstn k opening)) = [].
Proof.
  intros Hk. assert (k = 1 \/ k = 2 \/ k = 3) as [-> | [-> | ->]] by lia;
    now split.
Qed.

(** The serialized reports and the written ones of a run. *)
Lemma reports_of_run :
  (serialized (trace (final w)) = [] /\ reports (trace (final w)) = []) \/
  exists f t1,
    entered w /\
    observe w (at_try w) = (Ok f, absorb (at_try w) t1) /\
    learned w (at_try w) f t1 /\
    let rep := report_of w f (absorb (at_try w) t1) in
    serialized (trace (final w)) = [rep] /\
    reports (trace (final w)) =
      match w_writeFileSync w with Ok _ => [rep] | Throw _ => [] end /\
    trace (final w) =
      map Call (firstn 3 opening) ++ t1 ++ saved w rep ++
      handler_lines (saved_result w) ++ cleanup w.
Proof.
  destruct (entered_dec w) as [He | Hn].
  - destruct (run_anatomy w He) as (ro & t1 & E & Ho & _ & _ & Hl & _ & _ & Er).
    destruct (observing_excludes t1 Ho) as (_ & _ & R1 & S1 & _).
    destruct (cleanup_excludes w) as (_ & _ & _ & Ks & Kr).
    destruct (handler_excludes (main_outcome w ro)) as (_ & _ & Hs & Hr & _).
    rewrite (trace_final _ _ _ Er).
    destruct (serialized_map_Call_opening 3 ltac:(lia)) as [O1 O2].
    destruct ro as [f | e]; simpl main_effects.
    + right. exists f, t1. split; [exact He |]. split; [exact E |].
      split; [now apply Hl |]. cbv zeta.
      destruct (serialized_saved w (report_of w f (absorb (at_try w) t1)))
        as (V1 & V2 & _).
      rewrite !serialized_app, !reports_app, O1, O2, S1, R1, V1, V2, Hs, Hr, Ks, Kr.
      rewrite !app_nil_r, <- !app_assoc. simpl. now repeat split.
    + left. rewrite !serialized_app, !reports_app, O1, O2, S1, R1, Hs, Hr, Ks, Kr.
      now split.
  - left. destruct (run_failed w Hn) as (e & k & Hk & Er).
    rewrite (trace_final _ _ _ Er). now apply serialized_map_Call_opening.
Qed.

(** Where the report comes from.  The trace of a run that writes the
    report [rep] is [t1], the heading of the network summary (line 110),
    [t2], the call of [fs.writeFileSync] and [t3]; the two filtered arrays
    hold the records of [t1], the two others those of [t1] and [t2]. *)
Lemma report_anatomy (rep : Report.t) :
  In rep (reports (trace (final w))) ->
  exists f t1 t2 t3,
    reports (trace (final w)) = [rep] /\
    serialized (trace (final w)) = [rep] /\
    trace (final w) =
      t1 ++ Print ConsoleLogStream LNetworkRequests ::
      t2 ++ Call (WriteFileSync report_path rep) :: t3 /\
    settled (w_queryScript w) = Ok (giscusScript f) /\
    settled (w_queryIframe w) = Ok (giscusIframe f) /\
    rep =
      {| Report.timestamp := w_now w;
         Report.url := target_url;
         Report.giscusScript := found (giscusScript f);
         Report.giscusIframe := found (giscusIframe f);
         Report.requests :=
           filter (fun r => includes (Request.url r) "giscus") (requests_in t1);
         Report.responses :=
           filter (fun r => includes (Response.url r) "giscus") (responses_in t1);
         Report.consoleLogs := consoleLogs_in (t1 ++ t2);
         Report.pageErrors := pageErrors_in (t1 ++ t2) |}.
Proof.
  intros Hin.
  destruct reports_of_run as [[_ Hr] | (f & t1 & He & E & Hl & Hs & Hr & Ht)];
    [rewrite Hr in Hin; destruct Hin |].
  cbv zeta in Hs, Hr, Ht. rewrite Hr in Hin.
  destruct (w_writeFileSync w) as [[] | e] eqn:Ew; [| destruct Hin].
  destruct Hin as [<- | []].
  destruct Hl as (Q1 & Q2 & a & b & -> & G1 & G2).
  exists f, (map Call (firstn 3 opening) ++ a), b.
  eexists. split; [exact Hr |]. split; [exact Hs |]. split.
  { rewrite Ht. unfold saved at 1. rewrite <- ?app_assoc. simpl.
    rewrite <- ?app_assoc. simpl. reflexivity. }
  split; [exact Q1 |]. split; [exact Q2 |].
  unfold report_of. rewrite G1, G2, (at_try_entered w He). simpl.
  rewrite !consoleLogs_in_app, !pageErrors_in_app. reflexivity.
Qed.

End Report.

(** C10.  In a report that was written, [giscusScript] is "found" when the
    query for the script tag returned a handle and "not found" otherwise,
    so it is "found" if and only if the query returned a handle; likewise
    [giscusIframe] and the query for the iframe. *)
Theorem report_found_iff_query_returned_handle :
  forall (w : world) (rep : Report.t),
    In rep (reports (trace (final w))) ->
    Report.giscusScript rep =
      (if returned_handle (w_queryScript w) then "found" else "not found") /\
    Report.giscusIframe rep =
      (if returned_handle (w_queryIframe w) then "found" else "not found") /\
    (Report.giscusScript rep = "found" <->
     exists h, settled (w_queryScript w) = Ok (Some h)) /\
    (Report.giscusIframe rep = "found" <->
     exists h, settled (w_queryIframe w) = Ok (Some h)).
Proof.
  intros w rep Hin.
  destruct (report_anatomy w rep Hin)
    as (f & t1 & t2 & t3 & _ & _ & _ & Q1 & Q2 & ->).
  unfold returned_handle. rewrite Q1, Q2. simpl.
  destruct (giscusScript f) as [hs |], (giscusIframe f) as [hi |]; simpl;
    repeat split; eauto; try discriminate;
    intros [h Hh]; discriminate.
Qed.

(** The run [w_happy] finds both elements and reports them found. *)
Lemma report_found_iff_query_returned_handle_witness :
  exists rep,
    reports (trace (final w_happy)) = [rep] /\
    Report.giscusScript rep = "found" /\
    Report.giscusIframe rep = "found".
Proof.
  eexists. split; [vm_compute; reflexivity |].
  match goal with |- context [Report.giscusScript ?r] =>
    assert (Hin : In r (reports (trace (final w_happy))))
      by (vm_compute; left; reflexivity);
    destruct (report_found_iff_query_returned_handle w_happy r Hin)
      as (H1 & H2 & _)
  end.
  split; [exact H1 | exact H2].
Defined.

(** C9, as stated, fails: in the run [w_late] the listener captures a
    request to giscus.app while the script queries the container, after the
    filter of line 111 has run; the request is in [requests], its URL
    contains "giscus", and the report does not hold it. *)
Lemma late_giscus_request_not_in_report :
  exists rep,
    reports (trace (final w_late)) = [rep] /\
    In late_request (requests (final w_late)) /\
    includes (Request.url late_request) "giscus" = true /\
    ~ In late_request (Report.requests rep).
Proof.
  eexists. split; [vm_compute; reflexivity |]. split; [| split].
  - vm_compute. tauto.
  - vm_compute. reflexivity.
  - vm_compute. intros [H | [H | []]]; discriminate.
Qed.

(** C9, amended.  In a report that was written, [requests] and [responses]
    hold exactly the records captured before the network summary starts
    (line 110) whose URL contains "giscus", in the order of capture, and no
    other; [consoleLogs] and [pageErrors] hold every record captured before
    the report is handed to [fs.writeFileSync], unfiltered. *)
Theorem report_filters_giscus_before_summary :
  forall (w : world) (rep : Report.t),
    In rep (reports (trace (final w))) ->
    exists t1 t2 t3,
      trace (final w) =
        t1 ++ Print ConsoleLogStream LNetworkRequests ::
        t2 ++ Call (WriteFileSync report_path rep) :: t3 /\
      Report.requests rep =
        filter (fun r => includes (Request.url r) "giscus") (requests_in t1) /\
      Report.responses rep =
        filter (fun r => includes (Response.url r) "giscus") (responses_in t1) /\
      (forall r, In r (Report.requests rep) <->
                 In r (requests_in t1) /\
                 exists a b, Request.url r = (a ++ "giscus" ++ b)%string) /\
      (forall r, In r (Report.responses rep) <->
                 In r (responses_in t1) /\
                 exists a b, Response.url r = (a ++ "giscus" ++ b)%string) /\
      Report.consoleLogs rep = consoleLogs_in (t1 ++ t2) /\
      Report.pageErrors rep = pageErrors_in (t1 ++ t2).
Proof.
  intros w rep Hin.
  destruct (report_anatomy w rep Hin)
    as (f & t1 & t2 & t3 & _ & _ & Ht & _ & _ & Hrep).
  assert (Hreq : Report.requests rep =
                 filter (fun r => includes (Request.url r) "giscus") (requests_in t1))
    by now rewrite Hrep.
  assert (Hres : Report.responses rep =
                 filter (fun r => includes (Response.url r) "giscus") (responses_in t1))
    by now rewrite Hrep.
  exists t1, t2, t3.
  split; [exact Ht |]. split; [exact Hreq |]. split; [exact Hres |].
  split; [| split; [| now rewrite Hrep]].
  - intros r. rewrite Hreq, filter_In, includes_spec. reflexivity.
  - intros r. rewrite Hres, filter_In, includes_spec. reflexivity.
Qed.

(** The report of the run [w_late]. *)
Lemma report_filters_giscus_before_summary_witness :
  exists rep,
    reports (trace (final w_late)) = [rep] /\
    exists t1 t2 t3,
      trace (final w_late) =
        t1 ++ Print ConsoleLogStream LNetworkRequests ::
        t2 ++ Call (WriteFileSync report_path rep) :: t3 /\
      Report.requests rep =
        filter (fun r => includes (Request.url r) "giscus") (requests_in t1).
Proof.
  eexists. split; [vm_compute; reflexivity |].
  match goal with |- context [Report.requests ?r] =>
    assert (Hin : In r (reports (trace (final w_late))))
      by (vm_compute; left; reflexivity);
    destruct (report_filters_giscus_before_summary w_late r Hin)
      as (t1 & t2 & t3 & Ht & Hr & _)
  end.
  exists t1, t2, t3. split; [exact Ht | exact Hr].
Defined.

(** C2, as stated, fails: in the run [w_happy] the request for the page and
    its response are collected by the listeners, and the report holds
    neither. *)
Lemma collected_page_request_not_in_report :
  exists rep,
    reports (trace (final w_happy)) = [rep] /\
    In page_request (requests (final w_happy)) /\
    ~ In page_request (Report.requests rep) /\
    In page_response (responses (final w_happy)) /\
    ~ In page_response (Report.responses rep).
Proof.
  eexists. split; [vm_compute; reflexivity |].
  split; [| split; [| split]].
  - vm_compute. tauto.
  - vm_compute. intros [H | [H | []]]; discriminate.
  - vm_compute. tauto.
  - vm_compute. intros [H | [H | []]]; discriminate.
Qed.

(** C2, amended.  A report that a run writes is serialized once and written
    once in that run.  It holds the time of the run; of the requests and
    responses collected before the network summary starts (line 110), those
    whose URL contains "giscus"; and every console message and page error
    collected before the report is handed to [fs.writeFileSync]. *)
Theorem report_holds_filtered_observations_once :
  forall (w : world) (rep : Report.t),
    In rep (reports (trace (final w))) ->
    serialized (trace (final w)) = [rep] /\
    reports (trace (final w)) = [rep] /\
    Report.timestamp rep = w_now w /\
    exists t1 t2 t3,
      trace (final w) =
        t1 ++ Print ConsoleLogStream LNetworkRequests ::
        t2 ++ Call (WriteFileSync report_path rep) :: t3 /\
      Report.requests rep =
        filter (fun r => includes (Request.url r) "giscus") (requests_in t1) /\
      Report.responses rep =
        filter (fun r => includes (Response.url r) "giscus") (responses_in t1) /\
      Report.consoleLogs rep = consoleLogs_in (t1 ++ t2) /\
      Report.pageErrors rep = pageErrors_in (t1 ++ t2).
Proof.
  intros w rep Hin.
  destruct (report_anatomy w rep Hin)
    as (f & t1 & t2 & t3 & Hr & Hs & Ht & _ & _ & Hrep).
  split; [exact Hs |]. split; [exact Hr |]. split; [now rewrite Hrep |].
  exists t1, t2, t3. split; [exact Ht |]. rewrite Hrep. simpl. auto.
Qed.

(** The report of the run [w_happy]. *)
Lemma report_holds_filtered_observations_once_witness :
  exists rep,
    reports (trace (final w_happy)) = [rep] /\
    serialized (trace (final w_happy)) = [rep] /\
    Report.timestamp rep = w_now w_happy.
Proof.
  eexists. split; [vm_compute; reflexivity |].
  match goal with |- context [Report.timestamp ?r] =>
    assert (Hin : In r (reports (trace (final w_happy))))
      by (vm_compute; left; reflexivity);
    destruct (report_holds_filtered_observations_once w_happy r Hin)
      as (H1 & _ & H3 & _)
  end.
  split; [exact H1 | exact H3].
Defined.

(* ------------------------------------------------------------------ *)
(** ** The branches of the script *)

Section Branches.

Lemma script_lines_app (t1 t2 : list effect) :
  script_lines (t1 ++ t2) = script_lines t1 ++ script_lines t2.
Proof. apply flat_map_app. Qed.

Lemma script_lines_heard (evs : list event) : script_lines (heard evs) = [].
Proof. induction evs as [| [] evs IH]; simpl; auto. Qed.

Lemma script_lines_await (c : call) (evs : list event) :
  script_lines (Call c :: heard evs) = [].
Proof. apply script_lines_heard. Qed.

Lemma trace_absorb_initial (tl : list effect) :
  trace (absorb initial tl) = tl.
Proof. reflexivity. Qed.



Variable w : world.

Lemma check_iframe_lines :
  script_lines (trace (snd (check_iframe w initial))) =
    LCheckIframe ::
    match settled (w_queryIframe w) with
    | Ok (Some _) =>
        match settled (w_iframeSrc w) with
        | Ok iframeSrc =>
            [ LIframeFound; LIframeSrc iframeSrc;
              LIframeSrcLength
                (if truthy iframeSrc then length_of iframeSrc else 0) ] ++
            (if truthy iframeSrc && (2000 <? length_of iframeSrc)%nat
             then [LIframeSrcTooLong (length_of iframeSrc); LUriTooLongHint]
             else [])
        | Throw _ => []
        end
    | Ok None => [LIframeMissing]
    | Throw _ => []
    end.
Proof.
  unfold check_iframe, bind, console_log, ret.
  rewrite emit_print_eq, await_eq, absorb_app.
  destruct (settled (w_queryIframe w)) as [[h |] | e].
  - rewrite await_eq, absorb_app.
    destruct (settled (w_iframeSrc w)) as [src | e].
    + rewrite !emit_print_eq, !absorb_app.
      destruct (truthy src && (2000 <? length_of src)%nat);
        rewrite ?emit_print_eq, ?absorb_app; cbn [snd];
        rewrite trace_absorb_initial, !script_lines_app, !script_lines_await;
        reflexivity.
    + cbn [snd].
      now rewrite trace_absorb_initial, !script_lines_app, !script_lines_await.
  - rewrite emit_print_eq, absorb_app. cbn [snd].
    now rewrite trace_absorb_initial, !script_lines_app, !script_lines_await.
  - cbn [snd].
    now rewrite trace_absorb_initial, !script_lines_app, !script_lines_await.
Qed.


End Branches.



(* ------------------------------------------------------------------ *)
(** ** Properties of whole traces *)

Section Keeps.

Variable P : list effect -> Prop.
Hypothesis HP : closed P.

Lemma keeps_ret {A} (a : A) : keeps P (ret a).
Proof.
  eapply sat_conseq; [apply sat_ret |]. intros ? ? ? [_ ->]. apply HP.
Qed.

Lemma keeps_get {A} (f : state -> A) : keeps P (get f).
Proof.
  eapply sat_conseq; [apply sat_get |]. intros ? ? ? [_ ->]. apply HP.
Qed.

Lemma keeps_bind {A B} (m : M A) (k : A -> M B) :
  keeps P m -> (forall a, keeps P (k a)) -> keeps P (bind m k).
Proof.
  intros Hm Hk. eapply sat_bind; [exact Hm | exact Hk | |]; simpl.
  - intros _ _ t H. exact H.
  - intros _ _ t1 _ t2 H1 H2. now apply HP.
Qed.

Lemma keeps_console_log (l : line) :
  P [Print ConsoleLogStream l] -> keeps P (console_log l).
Proof.
  intros H. eapply sat_conseq; [apply sat_print |]. now intros ? ? ? [_ ->].
Qed.

Lemma keeps_console_error (l : line) :
  P [Print ConsoleErrorStream l] -> keeps P (console_error l).
Proof.
  intros H. eapply sat_conseq; [apply sat_print |]. now intros ? ? ? [_ ->].
Qed.

Lemma keeps_created (path : string) (f : file) :
  P [Created path f] -> keeps P (emit (Created path f)).
Proof.
  intros H. eapply sat_conseq; [apply sat_created |]. now intros ? ? ? [_ ->].
Qed.

Lemma keeps_invoke {A} (c : call) (r : result A) :
  P [Call c] -> keeps P (invoke c r).
Proof.
  intros H. eapply sat_conseq; [apply sat_invoke |]. now intros ? ? ? [_ ->].
Qed.

Lemma keeps_await {A} (c : call) (a : awaited A) :
  P [Call c] -> (forall evs, P (heard evs)) -> keeps P (await c a).
Proof.
  intros H Hh. eapply sat_conseq; [apply sat_await |].
  intros ? ? ? [_ ->]. change (P ([Call c] ++ heard (during a))).
  apply HP; [exact H | apply Hh].
Qed.

Lemma keeps_console_logs (ls : list line) :
  (forall l, In l ls -> P [Print ConsoleLogStream l]) ->
  keeps P (console_logs ls).
Proof.
  induction ls as [| l ls IH]; intros H; simpl.
  - apply keeps_ret.
  - apply keeps_bind.
    + apply keeps_console_log, H. now left.
    + intros _. apply IH. intros l' Hl'. apply H. now right.
Qed.

Lemma keeps_forEach {A} (xs : list A) (f : A -> nat -> M unit) :
  (forall x idx, keeps P (f x idx)) -> keeps P (forEach xs f).
Proof.
  intros Hf. unfold forEach. generalize 0.
  induction xs as [| x xs IH]; intros idx; simpl.
  - apply keeps_ret.
  - apply keeps_bind; [apply Hf | intros _; apply IH].
Qed.

Lemma keeps_try {A} (body : M A) (handler : exn -> M A) (finalizer : M unit) :
  keeps P body -> (forall e, keeps P (handler e)) -> keeps P finalizer ->
  keeps P (try_catch_finally body handler finalizer).
Proof.
  intros Hb Hh Hf st. unfold try_catch_finally.
  destruct (Hb st) as (r1 & t1 & E1 & P1). rewrite E1.
  destruct r1 as [a | e].
  - destruct (Hf (absorb st t1)) as (r3 & t3 & E3 & P3).
    rewrite E3, absorb_app.
    exists (match r3 with Ok _ => Ok a | Throw e => Throw e end), (t1 ++ t3).
    split; [now destruct r3 | now apply HP].
  - destruct (Hh e (absorb st t1)) as (r2 & t2 & E2 & P2). rewrite E2.
    destruct (Hf (absorb (absorb st t1) t2)) as (r3 & t3 & E3 & P3).
    rewrite E3, !absorb_app.
    exists (match r3 with Ok _ => r2 | Throw e => Throw e end),
           (t1 ++ t2 ++ t3).
    split; [now destruct r3 |]. apply HP; [exact P1 | now apply HP].
Qed.

(** What holds of the effects of the script holds of the trace of a run. *)
Lemma keeps_final (w : world) : keeps P (script w) -> P (trace (final w)).
Proof.
  intros H. destruct (H initial) as (r & tl & E & Htl).
  unfold final, run. now rewrite E.
Qed.

End Keeps.

(** Walks through a block; [tac] proves [P] of each single effect. *)
Ltac keeps_step tac :=
  lazymatch goal with
  | |- keeps _ (bind _ _) => apply keeps_bind; [assumption | | intros ?]
  | |- keeps _ (ret _) => apply keeps_ret; assumption
  | |- keeps _ (get _) => apply keeps_get; assumption
  | |- keeps _ (console_log _) => apply keeps_console_log; tac
  | |- keeps _ (console_error _) => apply keeps_console_error; tac
  | |- keeps _ (emit (Created _ _)) => apply keeps_created; tac
  | |- keeps _ (invoke _ _) => apply keeps_invoke; tac
  | |- keeps _ (await _ _) => apply keeps_await; [assumption | tac | assumption]
  | |- keeps _ (forEach _ _) => apply keeps_forEach; [assumption | intros ? ?]
  | |- keeps _ (try_catch_finally _ _ _) =>
      apply keeps_try; [assumption | | intros ? |]
  | |- keeps _ (console_logs _) =>
      apply keeps_console_logs; [assumption |];
      let l := fresh "l" in let H := fresh "H" in
      intros l H; apply in_map_iff in H; destruct H as (? & <- & _); tac
  | |- keeps _ (let _ := _ in _) => cbv zeta
  | |- keeps _ (match ?x with _ => _ end) => destruct x
  end.

Ltac keeps_walk tac := repeat (keeps_step tac).

Ltac unfold_script :=
  unfold script, setup, guarded, main_path, observe, inspect, check_script,
    check_iframe, summarize_requests, print_requests, print_request,
    summarize_responses, print_responses, print_response, check_container,
    summarize_console_errors, summarize_page_errors.

Section Echo.

Lemma closed_echoed : closed echoed.
Proof.
  split; [reflexivity |]. unfold echoed, received. intros t1 t2 H1 H2.
  now rewrite filter_app, flat_map_app, map_app, H1, H2.
Qed.

Lemma echoed_heard (evs : list event) : echoed (heard evs).
Proof.
  unfold echoed. induction evs as [| ev evs IH]; [reflexivity |].
  destruct ev; simpl; f_equal; exact IH.
Qed.

Lemma observe_echoed (w : world) : keeps echoed (observe w).
Proof.
  pose proof closed_echoed. pose proof echoed_heard.
  unfold_script. keeps_walk ltac:(reflexivity).
Qed.

Lemma script_echoed (w : world) : keeps echoed (script w).
Proof.
  pose proof closed_echoed. pose proof echoed_heard.
  unfold script, setup, guarded, main_path, write_report, take_screenshot.
  repeat first [apply observe_echoed | keeps_step ltac:(reflexivity)].
Qed.

End Echo.

Section Delivery.

Variable w : world.

Lemma received_app (t1 t2 : list effect) :
  received (t1 ++ t2) = received t1 ++ received t2.
Proof. apply flat_map_app. Qed.

Lemma received_heard (evs : list event) : received (heard evs) = evs.
Proof.
  induction evs as [| ev evs IH]; [reflexivity |].
  destruct ev; simpl; f_equal; exact IH.
Qed.

Lemma closed_delivered : closed (delivered w).
Proof.
  split; [reflexivity |]. unfold delivered. intros t1 t2 H1 H2.
  now rewrite received_app, calls_app, flat_map_app, H1, H2.
Qed.

(** An awaited call and what the listeners do meanwhile. *)
Lemma delivered_await (c : call) (evs : list event) :
  emitted w c = evs -> delivered w (Call c :: heard evs).
Proof.
  intros H. unfold delivered.
  change (Call c :: heard evs) with ([Call c] ++ heard evs).
  rewrite received_app, calls_app, received_heard, calls_heard.
  simpl. now rewrite H, app_nil_r.
Qed.

Lemma keeps_awaited {A} (P : list effect -> Prop) (c : call) (a : awaited A) :
  P (Call c :: heard (during a)) -> keeps P (await c a).
Proof.
  intros H. eapply sat_conseq; [apply sat_await |]. now intros ? ? ? [_ ->].
Qed.

Lemma observe_delivered : keeps (delivered w) (observe w).
Proof.
  pose proof closed_delivered.
  unfold_script.
  repeat lazymatch goal with
         | |- keeps _ (await _ _) =>
             apply keeps_awaited; apply delivered_await; reflexivity
         | |- _ => keeps_step ltac:(reflexivity)
         end.
Qed.

Lemma script_delivered : keeps (delivered w) (script w).
Proof.
  pose proof closed_delivered.
  unfold script, setup, guarded, main_path, write_report, take_screenshot.
  repeat lazymatch goal with
         | |- keeps _ (observe _) => apply observe_delivered
         | |- keeps _ (await _ _) =>
             apply keeps_awaited; apply delivered_await; reflexivity
         | |- _ => keeps_step ltac:(reflexivity)
         end.
Qed.

Lemma echoes_app (t1 t2 : list effect) :
  echoes t1 -> echoes t2 -> echoes (t1 ++ t2).
Proof.
  intros H1 H2. induction H1; simpl; [exact H2 | |].
  - now apply echoes_event.
  - now apply echoes_other.
Qed.

Lemma closed_echoes : closed echoes.
Proof. split; [apply echoes_nil | apply echoes_app]. Qed.

Lemma echoes_heard (evs : list event) : echoes (heard evs).
Proof.
  induction evs as [| ev evs IH]; [apply echoes_nil |].
  now apply echoes_event.
Qed.

Lemma echoes_one (e : effect) :
  is_event e = false -> is_listener_print e = false -> echoes [e].
Proof. intros H1 H2. apply echoes_other; [exact H1 | exact H2 | apply echoes_nil]. Qed.

Lemma observe_echoes : keeps echoes (observe w).
Proof.
  pose proof closed_echoes. pose proof echoes_heard.
  unfold_script. keeps_walk ltac:(now apply echoes_one).
Qed.

Lemma script_echoes : keeps echoes (script w).
Proof.
  pose proof closed_echoes. pose proof echoes_heard.
  unfold script, setup, guarded, main_path, write_report, take_screenshot.
  repeat lazymatch goal with
         | |- keeps _ (observe _) => apply observe_echoes
         | |- _ => keeps_step ltac:(now apply echoes_one)
         end.
Qed.

Lemma emitted_events (c : call) (ev : event) :
  In ev (emitted w c) -> In ev (events_of w).
Proof.
  unfold events_of. rewrite !in_app_iff.
  destruct c as [| | | | | selector | [] | | | | |]; simpl; try tauto.
  destruct (String.eqb selector script_selector); [tauto |].
  destruct (String.eqb selector iframe_selector); tauto.
Qed.

(** In such a trace an event is followed at once by its line. *)
Lemma echoes_followed (tl : list effect) :
  echoes tl ->
  forall pre ev post,
    tl = pre ++ Recv ev :: post -> exists rest, post = listener_line ev :: rest.
Proof.
  induction 1 as [| ev0 tl0 H IH | e tl0 He Hl H IH]; intros pre ev post E.
  - now destruct pre.
  - destruct pre as [| e1 [| e2 pre]].
    + injection E as <- <-. now exists tl0.
    + injection E as _ E _. destruct ev0; discriminate.
    + injection E as _ _ E. exact (IH _ _ _ E).
  - destruct pre as [| e1 pre].
    + injection E as -> _. discriminate.
    + injection E as _ E. exact (IH _ _ _ E).
Qed.

(** And a listener's line comes right after its event. *)
Lemma echoes_preceded (tl : list effect) :
  echoes tl ->
  forall pre e post,
    tl = pre ++ e :: post -> is_listener_print e = true ->
    exists before ev, pre = before ++ [Recv ev] /\ e = listener_line ev.
Proof.
  induction 1 as [| ev0 tl0 H IH | e0 tl0 He Hl H IH]; intros pre e post E Hp.
  - now destruct pre.
  - destruct pre as [| e1 [| e2 pre]].
    + injection E as <- _. discriminate.
    + injection E as <- <- _. now exists [], ev0.
    + injection E as <- <- E.
      destruct (IH _ _ _ E Hp) as (before & ev & -> & ->).
      now exists (Recv ev0 :: listener_line ev0 :: before), ev.
  - destruct pre as [| e1 pre].
    + injection E as <- _. congruence.
    + injection E as <- E.
      destruct (IH _ _ _ E Hp) as (before & ev & -> & ->).
      now exists (e0 :: before), ev.
Qed.

End Delivery.

(** X4.  In a world whose console messages have ASCII types, every event
    the page emits during a run is echoed on the console by its listener,
    once and when it arrives.  The events received in a run are those that
    the world emits during the awaited calls the run makes, call after
    call, so every console message received has an ASCII type; each event
    is followed at once in the trace by the line of its own listener (for
    a console message, its type in upper case and its text), and a line of
    a listener occurs only right after its event: so the listeners' lines
    of the trace are the lines of the received events, in the order of the
    events, the script itself prints no such line, and there are as many as
    records in the four arrays. *)
Theorem every_event_echoed_in_order :
  forall w : world,
    console_types_in_ascii w ->
    let tl := trace (final w) in
    received tl = flat_map (emitted w) (calls tl) /\
    (forall msg,
        In (EvConsole msg) (received tl) ->
        Js.ascii_only (ConsoleLog.type msg) = true) /\
    (forall pre ev post,
        tl = pre ++ Recv ev :: post ->
        exists rest, post = listener_line ev :: rest) /\
    (forall pre e post,
        tl = pre ++ e :: post -> is_listener_print e = true ->
        exists before ev, pre = before ++ [Recv ev] /\ e = listener_line ev) /\
    (forall msg,
        listener_line (EvConsole msg) =
          Print ConsoleLogStream
            (LConsole (Js.toUpperCase (ConsoleLog.type msg))
                      (ConsoleLog.text msg))) /\
    filter is_listener_print tl = map listener_line (received tl) /\
    List.length (filter is_listener_print tl) =
      List.length (requests (final w)) + List.length (responses (final w)) +
      List.length (consoleLogs (final w)) + List.length (pageErrors (final w)).
Proof.
  intros w Hascii. cbv zeta.
  pose proof (keeps_final (delivered w) w (script_delivered w)) as Hd.
  split; [exact Hd |]. split.
  { intros msg Hin. unfold delivered in Hd. rewrite Hd in Hin.
    apply in_flat_map in Hin. destruct Hin as (c & _ & Hin).
    apply emitted_events in Hin. unfold console_types_in_ascii in Hascii.
    rewrite forallb_forall in Hascii. exact (Hascii _ Hin). }
  pose proof (keeps_final echoes w (script_echoes w)) as He.
  split; [exact (echoes_followed _ He) |].
  split; [exact (echoes_preceded _ He) |].
  split; [reflexivity |].
  pose proof (keeps_final echoed w (script_echoed w)) as H. unfold echoed in H.
  split; [exact H |]. rewrite H, length_map.
  destruct (script_regular w initial) as (r & tl & E).
  unfold final, run. rewrite E. simpl. clear.
  induction tl as [| e tl IH]; [reflexivity |].
  destruct e as [| [] | |]; simpl; rewrite ?IH; lia.
Qed.

(** In the run [w_happy] the page emits eight events, one of them a console
    message of type "error", shown as ERROR. *)
Lemma every_event_echoed_in_order_witness :
  console_types_in_ascii w_happy /\
  received (trace (final w_happy)) =
    flat_map (emitted w_happy) (calls (trace (final w_happy))) /\
  List.length (filter is_listener_print (trace (final w_happy))) = 8 /\
  listener_line (EvConsole warning_message) =
    Print ConsoleLogStream (LConsole "ERROR" "giscus: discussion not found").
Proof.
  assert (Ha : console_types_in_ascii w_happy) by reflexivity.
  split; [exact Ha |].
  destruct (every_event_echoed_in_order w_happy Ha)
    as (H1 & _ & _ & _ & H5 & _ & H7).
  split; [exact H1 |]. split; [| exact (H5 warning_message)].
  rewrite H7. vm_compute. reflexivity.
Defined.

Section Announcements.

Lemma closed_announced : closed announced.
Proof.
  split; [reflexivity |]. unfold announced, announcements, due_announcements.
  intros t1 t2 H1 H2. now rewrite !flat_map_app, H1, H2.
Qed.

Lemma announced_heard (evs : list event) : announced (heard evs).
Proof.
  unfold announced. induction evs as [| [] evs IH]; simpl; auto.
Qed.

Lemma observe_announced (w : world) : keeps announced (observe w).
Proof.
  pose proof closed_announced. pose proof announced_heard.
  unfold_script. keeps_walk ltac:(reflexivity).
Qed.

Lemma write_report_announced (w : world) (f : findings) :
  keeps announced (write_report w f).
Proof.
  intros st. rewrite write_report_eq. do 2 eexists.
  split; [reflexivity |]. now destruct (w_writeFileSync w).
Qed.

Lemma take_screenshot_announced (w : world) :
  keeps announced (take_screenshot w).
Proof.
  intros st. rewrite take_screenshot_eq. do 2 eexists.
  split; [reflexivity |]. unfold shot.
  change (announced ([Call (Screenshot screenshot_path true)] ++
                     heard (during (w_screenshot w)) ++
                     match settled (w_screenshot w) with
                     | Ok _ => [ Created screenshot_path PngFile;
                                 Print ConsoleLogStream LScreenshotSaved ]
                     | Throw _ => []
                     end)).
  destruct closed_announced as [_ Happ].
  apply Happ; [reflexivity |]. apply Happ; [apply announced_heard |].
  now destruct (settled (w_screenshot w)).
Qed.

Lemma script_announced (w : world) : keeps announced (script w).
Proof.
  pose proof closed_announced. pose proof announced_heard.
  unfold script, setup, guarded, main_path.
  repeat first
    [ apply observe_announced | apply write_report_announced
    | apply take_screenshot_announced | keeps_step ltac:(reflexivity) ].
Qed.

End Announcements.

(** X5.  The console announces a saved file exactly when the file was
    written: in the trace of any run, the announcements of lines 194 and
    201 are those of the files written, in the same order; so the report is
    announced if and only if it was written, and likewise the screenshot. *)
Theorem saved_files_announced_truthfully :
  forall w : world,
    announcements (trace (final w)) = due_announcements (trace (final w)) /\
    (In LReportSaved (announcements (trace (final w))) <->
     exists rep, In (report_path, JsonFile rep) (files (trace (final w)))) /\
    (In LScreenshotSaved (announcements (trace (final w))) <->
     In (screenshot_path, PngFile) (files (trace (final w)))).
Proof.
  intros w.
  pose proof (keeps_final announced w (script_announced w)) as H.
  unfold announced in H. split; [exact H |]. rewrite H.
  destruct (addressed_fixed _ (trace_addressed w)) as [_ Hf].
  revert Hf. generalize (trace (final w)). clear. intros tl Hf.
  induction tl as [| e tl IH]; simpl.
  - split; (split; [tauto | intros H; try destruct H; tauto]).
  - destruct e as [| | | path [rep |]]; simpl in *; try (now apply IH).
    + inversion Hf as [| x l Hx Hl]; subst. unfold fixed_path in Hx.
      simpl in Hx. subst path. destruct (IH Hl) as [I1 I2]. split.
      * split; [intros _; exists rep; now left | intros _; now left].
      * split.
        -- intros [H | H]; [discriminate | right; now apply I2].
        -- intros [H | H]; [discriminate | right; now apply I2].
    + inversion Hf as [| x l Hx Hl]; subst. unfold fixed_path in Hx.
      simpl in Hx. subst path. destruct (IH Hl) as [I1 I2]. split.
      * split.
        -- intros [H | H]; [discriminate |]. destruct (proj1 I1 H) as [rep Hr].
           exists rep. now right.
        -- intros [rep [H | H]]; [discriminate |]. right. apply I1. now exists rep.
      * split; [intros _; now left | intros _; now left].
Qed.

(* ------------------------------------------------------------------ *)
(** ** The promise of the script, and failures while saving *)

(** X1.  The promise of the asynchronous function rejects only for a
    failure of the setup (lines 4-6) or of [browser.close()] (line 206): an
    error thrown inside the [try] block is swallowed by the [catch] clause
    and never reaches the caller, and an error of [browser.close()] rejects
    the promise even when the [try] block completed. *)
Theorem promise_rejects_only_for_setup_or_close :
  forall (w : world) (e : exn),
    outcome w = Throw e <->
    fst (setup w initial) = Throw e \/
    (entered w /\ settled (w_close w) = Throw e).
Proof.
  intros w e. destruct (entered_dec w) as [He | Hn].
  - destruct (run_anatomy w He) as (ro & t1 & _ & _ & _ & _ & _ & _ & _ & Er).
    unfold outcome. rewrite Er, (setup_entered w He). simpl fst.
    unfold settles. split.
    + intros H. right. split; [exact He |].
      destruct (settled (w_close w)) as [[] | e']; [| exact H].
      destruct (main_outcome w ro); discriminate.
    + intros [H | [_ H]]; [discriminate |]. now rewrite H.
  - destruct (setup_failed w Hn) as (e' & k & _ & Es).
    unfold outcome, run, script, bind. rewrite Es. simpl fst. split.
    + intros H. now left.
    + intros [H | [He _]]; [exact H | contradiction].
Qed.

(** X2.  When everything before the report succeeds and [fs.writeFileSync]
    throws: the report was serialized but no file is written, the
    screenshot is never requested, the error is logged once by the [catch]
    clause, the browser is closed, and the promise still resolves unless
    closing fails. *)
Theorem write_failure_skips_screenshot :
  forall (w : world) (f : findings) (e : exn),
    entered w ->
    observed w = Ok f ->
    w_writeFileSync w = Throw e ->
    exists rep,
      serialized (trace (final w)) = [rep] /\
      files (trace (final w)) = [] /\
      filter is_save (calls (trace (final w))) =
        [WriteFileSync report_path rep] /\
      caught (trace (final w)) = [e] /\
      filter is_close (calls (trace (final w))) = [Close] /\
      outcome w = settles (Throw e) (settled (w_close w)).
Proof.
  intros w f e He Ho Hw.
  destruct (run_anatomy w He) as (ro & t1 & E & Hobs & _ & _ & _ & _ & _ & Er).
  unfold observed in Ho. rewrite E in Ho. simpl in Ho. subst ro.
  exists (report_of w f (absorb (at_try w) t1)).
  unfold outcome. rewrite Er, (trace_final _ _ _ Er). simpl main_effects.
  simpl main_outcome. unfold saved_result, saved. rewrite Hw. simpl handler_lines.
  destruct (observing_excludes t1 Hobs) as (C1 & F1 & _ & S1 & K1 & _ & V1).
  destruct (cleanup_excludes w) as (Kc & Kf & Kk & Ks & _).
  rewrite !serialized_app, !files_app, !calls_app, !filter_app, !caught_app.
  rewrite (proj1 (serialized_map_Call_opening 3 ltac:(lia))).
  rewrite files_map_Call, calls_map_Call, C1, F1, S1, K1, V1, Kc, Kf, Kk, Ks.
  simpl. rewrite ?app_nil_r. repeat split.
Qed.

(** In the run [w_no_directory] the report cannot be written. *)
Lemma write_failure_skips_screenshot_witness :
  exists rep,
    serialized (trace (final w_no_directory)) = [rep] /\
    files (trace (final w_no_directory)) = [] /\
    filter is_save (calls (trace (final w_no_directory))) =
      [WriteFileSync report_path rep] /\
    caught (trace (final w_no_directory)) =
      ["ENOENT: no such file or directory"] /\
    filter is_close (calls (trace (final w_no_directory))) = [Close] /\
    outcome w_no_directory =
      settles (Throw "ENOENT: no such file or directory")
              (settled (w_close w_no_directory)).
Proof.
  assert (Ho : { f | observed w_no_directory = Ok f }).
  { destruct (observed w_no_directory) as [f | e] eqn:E;
      [now exists f | vm_compute in E; discriminate]. }
  destruct Ho as [f Hf].
  apply (write_failure_skips_screenshot w_no_directory f
           "ENOENT: no such file or directory").
  - split; [reflexivity | split; reflexivity].
  - exact Hf.
  - reflexivity.
Defined.

Lemma due_announcements_files (tl : list effect) :
  due_announcements tl =
    map (fun pf => match snd pf with
                   | JsonFile _ => LReportSaved
                   | PngFile => LScreenshotSaved
                   end) (files tl).
Proof.
  induction tl as [| e tl IH]; [reflexivity |].
  destruct e as [| | | path []]; simpl; now rewrite ?IH.
Qed.

Lemma final_announced (w : world) :
  announcements (trace (final w)) =
    map (fun pf => match snd pf with
                   | JsonFile _ => LReportSaved
                   | PngFile => LScreenshotSaved
                   end) (files (trace (final w))).
Proof.
  rewrite <- due_announcements_files.
  exact (keeps_final announced w (script_announced w)).
Qed.

(** X3.  When the report is written and [page.screenshot] throws: the
    report file stays, it is the only file, only the report is announced,
    and the error is logged once by the [catch] clause. *)
Theorem screenshot_failure_keeps_report :
  forall (w : world) (f : findings) (e : exn),
    entered w ->
    observed w = Ok f ->
    w_writeFileSync w = Ok tt ->
    settled (w_screenshot w) = Throw e ->
    exists rep,
      files (trace (final w)) = [(report_path, JsonFile rep)] /\
      reports (trace (final w)) = [rep] /\
      filter is_save (calls (trace (final w))) =
        [WriteFileSync report_path rep; Screenshot screenshot_path true] /\
      announcements (trace (final w)) = [LReportSaved] /\
      caught (trace (final w)) = [e].
Proof.
  intros w f e He Ho Hw Hs.
  destruct (run_anatomy w He) as (ro & t1 & E & Hobs & _ & _ & _ & _ & _ & Er).
  unfold observed in Ho. rewrite E in Ho. simpl in Ho. subst ro.
  exists (report_of w f (absorb (at_try w) t1)).
  rewrite final_announced, (trace_final _ _ _ Er). simpl main_effects.
  simpl main_outcome. unfold saved_result. rewrite Hw, Hs. simpl handler_lines.
  destruct (observing_excludes t1 Hobs) as (C1 & F1 & R1 & _ & _ & _ & V1).
  destruct (cleanup_excludes w) as (Kc & Kf & Kk & _ & Kr).
  destruct (serialized_saved w (report_of w f (absorb (at_try w) t1)))
    as (_ & Vr & Vc).
  rewrite !files_app, !reports_app, !calls_app, !filter_app, !caught_app.
  rewrite (proj2 (serialized_map_Call_opening 3 ltac:(lia))).
  rewrite files_map_Call, calls_map_Call, C1, F1, R1, V1, Kc, Kf, Kk, Kr, Vr, Vc.
  rewrite files_saved, calls_saved, Hw, Hs.
  simpl. rewrite ?app_nil_r. repeat split.
Qed.

(** In the run [w_no_screenshot] the screenshot fails. *)
Lemma screenshot_failure_keeps_report_witness :
  exists rep,
    files (trace (final w_no_screenshot)) = [(report_path, JsonFile rep)] /\
    reports (trace (final w_no_screenshot)) = [rep] /\
    filter is_save (calls (trace (final w_no_screenshot))) =
      [WriteFileSync report_path rep; Screenshot screenshot_path true] /\
    announcements (trace (final w_no_screenshot)) = [LReportSaved] /\
    caught (trace (final w_no_screenshot)) = ["page.screenshot: Target closed"].
Proof.
  assert (Ho : { f | observed w_no_screenshot = Ok f }).
  { destruct (observed w_no_screenshot) as [f | e] eqn:E;
      [now exists f | vm_compute in E; discriminate]. }
  destruct Ho as [f Hf].
  apply (screenshot_failure_keeps_report w_no_screenshot f
           "page.screenshot: Target closed").
  - split; [reflexivity | split; reflexivity].
  - exact Hf.
  - reflexivity.
  - reflexivity.
Defined.

(* ------------------------------------------------------------------ *)
(** ** The summaries *)

Section Each.

Lemma console_logs_eq (ls : list line) (st : state) :
  console_logs ls st = (Ok tt, absorb st (map (Print ConsoleLogStream) ls)).
Proof.
  revert st. induction ls as [| l ls IH]; intros st; simpl.
  - unfold ret. now rewrite absorb_nil.
  - unfold bind, console_log. now rewrite emit_print_eq, IH, absorb_app.
Qed.

Lemma numbered_cons {A} (idx : nat) (x : A) (xs : list A) :
  numbered idx (x :: xs) = (x, idx) :: numbered (S idx) xs.
Proof. reflexivity. Qed.

(** [forEach] with a callback that only prints. *)
Lemma forEach_prints {A} (f : A -> nat -> M unit) (lines : A -> nat -> list line) :
  (forall x i st,
      f x i st = (Ok tt, absorb st (map (Print ConsoleLogStream) (lines x i)))) ->
  forall xs st,
    forEach xs f st =
      (Ok tt, absorb st (map (Print ConsoleLogStream) (each_lines lines xs))).
Proof.
  intros Hf xs. unfold forEach, each_lines. generalize 0.
  induction xs as [| x xs IH]; intros idx st.
  - simpl. unfold ret. now rewrite absorb_nil.
  - rewrite numbered_cons. simpl. unfold bind.
    now rewrite Hf, IH, absorb_app, map_app.
Qed.

Lemma each_projection {A B} (pf : line -> list B)
    (lines : A -> nat -> list line) (g : A -> nat -> list B) :
  (forall x i, flat_map pf (lines x i) = g x i) ->
  forall xs,
    flat_map pf (each_lines lines xs) =
      flat_map (fun xi => g (fst xi) (snd xi)) (numbered 0 xs).
Proof.
  intros Hg xs. unfold each_lines. generalize 0.
  induction xs as [| x xs IH]; intros idx; [reflexivity |].
  rewrite numbered_cons. simpl. now rewrite flat_map_app, Hg, IH.
Qed.

(** The elements are numbered from 1, in order. *)
Lemma numbered_from_one {A} (xs : list A) (idx : nat) :
  flat_map (fun xi : A * nat => [snd xi + 1]) (numbered idx xs) =
    seq (idx + 1) (List.length xs).
Proof.
  revert idx. induction xs as [| x xs IH]; intros idx; [reflexivity |].
  rewrite numbered_cons. simpl. f_equal. now rewrite IH.
Qed.

Lemma numbered_elements {A B} (h : A -> list B) (xs : list A) (idx : nat) :
  flat_map (fun xi : A * nat => h (fst xi)) (numbered idx xs) = flat_map h xs.
Proof.
  revert idx. induction xs as [| x xs IH]; intros idx; [reflexivity |].
  rewrite numbered_cons. simpl. now rewrite IH.
Qed.

Lemma flat_map_singleton {A B} (h : A -> B) (xs : list A) :
  flat_map (fun x => [h x]) xs = map h xs.
Proof. induction xs; simpl; congruence. Qed.

Lemma flat_map_if {A B} (c : A -> bool) (b : B) (xs : list A) :
  List.length (flat_map (fun x => if c x then [b] else []) xs) =
    List.length (filter c xs).
Proof.
  induction xs as [| x xs IH]; [reflexivity |].
  simpl. destruct (c x); simpl; now rewrite IH.
Qed.

Lemma each_lines_In {A} (lines : A -> nat -> list line) (xs : list A) (l : line) :
  In l (each_lines lines xs) -> exists x i, In l (lines x i).
Proof.
  unfold each_lines. intros H. apply in_flat_map in H.
  destruct H as ([x i] & _ & H). now exists x, i.
Qed.

Lemma print_request_eq (req : Request.t) (idx : nat) (st : state) :
  print_request req idx st =
    (Ok tt, absorb st (map (Print ConsoleLogStream) (request_lines req idx))).
Proof.
  unfold print_request, request_lines, bind, console_log, ret.
  rewrite !emit_print_eq, !absorb_app.
  destruct (2000 <? Js.length (Request.url req))%nat;
    now rewrite ?emit_print_eq, ?absorb_app.
Qed.

Lemma print_response_eq (res : Response.t) (idx : nat) (st : state) :
  print_response res idx st =
    (Ok tt, absorb st (map (Print ConsoleLogStream) (response_lines res idx))).
Proof.
  unfold print_response, response_lines, bind, console_log, ret.
  rewrite !emit_print_eq, !absorb_app.
  destruct (400 <=? Response.status res)%Z;
    now rewrite ?emit_print_eq, ?absorb_app.
Qed.

Lemma nonempty_ltb {A} (xs : list A) :
  (0 <? List.length xs)%nat = match xs with [] => false | _ => true end.
Proof. now destruct xs. Qed.

End Each.

(** X6.  The network summary of requests (lines 110-124) never throws and
    changes no array.  From the requests collected so far it keeps those
    whose URL contains "giscus", returns them, and prints them numbered
    from 1 in the order of capture, each with its URL and the length of the
    URL in UTF-16 code units; it prints the line "no request" exactly when
    there is none; and it flags as many requests as have a URL longer than
    2000 code units. *)
Theorem requests_summary_lists_giscus_requests :
  forall st : state,
    let giscus :=
      filter (fun r => includes (Request.url r) "giscus") (requests st) in
    exists ls,
      summarize_requests st =
        (Ok giscus,
         absorb st (map (Print ConsoleLogStream) (LNetworkRequests :: ls))) /\
      (In LNoRequests ls <-> giscus = []) /\
      request_headers ls = seq 1 (List.length giscus) /\
      request_urls ls = map Request.url giscus /\
      request_url_lengths ls =
        map (fun r => Js.length (Request.url r)) giscus /\
      List.length (request_warnings ls) =
        List.length
          (filter (fun r => (2000 <? Js.length (Request.url r))%nat) giscus).
Proof.
  intros st. cbv zeta.
  set (giscus := filter (fun r => includes (Request.url r) "giscus") (requests st)).
  exists (match giscus with
          | [] => [LNoRequests]
          | _ => each_lines request_lines giscus
          end).
  split.
  - unfold summarize_requests, bind, console_log, get, print_requests, ret.
    rewrite emit_print_eq. cbv beta iota zeta.
    replace (requests (absorb st [Print ConsoleLogStream LNetworkRequests]))
      with (requests st) by (simpl; now rewrite app_nil_r).
    fold giscus. rewrite nonempty_ltb. destruct giscus as [| r rs] eqn:Eg.
    + unfold console_log. now rewrite emit_print_eq, absorb_app.
    + now rewrite (forEach_prints _ _ print_request_eq), absorb_app.
  - destruct giscus as [| r rs] eqn:Eg.
    + repeat split; auto. intros _. now left.
    + pose proof Eg as Hne. rewrite <- Eg. clear Eg.
      split; [| split; [| split; [| split]]].
      * split; [| intros H; congruence].
        intros H. apply each_lines_In in H. destruct H as (x & i & H).
        unfold request_lines in H.
        destruct (2000 <? Js.length (Request.url x))%nat; simpl in H;
          repeat (destruct H as [H | H]; try discriminate); contradiction.
      * unfold request_headers.
        rewrite (each_projection _ _ (fun _ i => [i + 1])).
        -- apply (numbered_from_one giscus 0).
        -- intros x i. unfold request_lines.
           now destruct (2000 <? Js.length (Request.url x))%nat.
      * unfold request_urls.
        rewrite (each_projection _ _ (fun x _ => [Request.url x])).
        -- rewrite (numbered_elements (fun x => [Request.url x])).
           apply flat_map_singleton.
        -- intros x i. unfold request_lines.
           now destruct (2000 <? Js.length (Request.url x))%nat.
      * unfold request_url_lengths.
        rewrite (each_projection _ _ (fun x _ => [Js.length (Request.url x)])).
        -- rewrite (numbered_elements (fun x => [Js.length (Request.url x)])).
           apply (flat_map_singleton (fun x => Js.length (Request.url x))).
        -- intros x i. unfold request_lines.
           now destruct (2000 <? Js.length (Request.url x))%nat.
      * unfold request_warnings.
        rewrite (each_projection _ _
                   (fun x _ => if (2000 <? Js.length (Request.url x))%nat
                               then [LRequestUrlTooLong] else [])).
        -- rewrite (numbered_elements
                      (fun x => if (2000 <? Js.length (Request.url x))%nat
                                then [LRequestUrlTooLong] else [])).
           apply flat_map_if.
        -- intros x i. unfold request_lines.
           now destruct (2000 <? Js.length (Request.url x))%nat.
Qed.

(** X7.  The network summary of responses (lines 126-139) never throws and
    changes no array.  From the responses collected so far it keeps those
    whose URL contains "giscus", returns them, and prints them numbered
    from 1 in the order of capture, each with its status; it prints the
    line "no response" exactly when there is none; and it flags as many
    responses as have a status of 400 or more. *)
Theorem responses_summary_lists_giscus_responses :
  forall st : state,
    let giscus :=
      filter (fun r => includes (Response.url r) "giscus") (responses st) in
    exists ls,
      summarize_responses st =
        (Ok giscus,
         absorb st (map (Print ConsoleLogStream) (LNetworkResponses :: ls))) /\
      (In LNoResponses ls <-> giscus = []) /\
      response_headers ls = seq 1 (List.length giscus) /\
      response_statuses ls =
        map (fun r => (Response.status r, Response.statusText r)) giscus /\
      List.length (response_warnings ls) =
        List.length (filter (fun r => (400 <=? Response.status r)%Z) giscus).
Proof.
  intros st. cbv zeta.
  set (giscus := filter (fun r => includes (Response.url r) "giscus") (responses st)).
  exists (match giscus with
          | [] => [LNoResponses]
          | _ => each_lines response_lines giscus
          end).
  split.
  - unfold summarize_responses, bind, console_log, get, print_responses, ret.
    rewrite emit_print_eq. cbv beta iota zeta.
    replace (responses (absorb st [Print ConsoleLogStream LNetworkResponses]))
      with (responses st) by (simpl; now rewrite app_nil_r).
    fold giscus. rewrite nonempty_ltb. destruct giscus as [| r rs] eqn:Eg.
    + unfold console_log. now rewrite emit_print_eq, absorb_app.
    + now rewrite (forEach_prints _ _ print_response_eq), absorb_app.
  - destruct giscus as [| r rs] eqn:Eg.
    + repeat split; auto. intros _. now left.
    + pose proof Eg as Hne. rewrite <- Eg. clear Eg. split; [| split; [| split]].
      * split; [| intros H; congruence].
        intros H. apply each_lines_In in H. destruct H as (x & i & H).
        unfold response_lines in H.
        destruct (400 <=? Response.status x)%Z; simpl in H;
          repeat (destruct H as [H | H]; try discriminate); contradiction.
      * unfold response_headers.
        rewrite (each_projection _ _ (fun _ i => [i + 1])).
        -- apply (numbered_from_one giscus 0).
        -- intros x i. unfold response_lines.
           now destruct (400 <=? Response.status x)%Z.
      * unfold response_statuses.
        rewrite (each_projection _ _
                   (fun x _ => [(Response.status x, Response.statusText x)])).
        -- rewrite (numbered_elements
                      (fun x => [(Response.status x, Response.statusText x)])).
           apply flat_map_singleton.
        -- intros x i. unfold response_lines.
           now destruct (400 <=? Response.status x)%Z.
      * unfold response_warnings.
        rewrite (each_projection _ _
                   (fun x _ => if (400 <=? Response.status x)%Z
                               then [LResponseFailed] else [])).
        -- rewrite (numbered_elements
                      (fun x => if (400 <=? Response.status x)%Z
                                then [LResponseFailed] else [])).
           apply flat_map_if.
        -- intros x i. unfold response_lines.
           now destruct (400 <=? Response.status x)%Z.
Qed.

(** X8.  The summary of console errors (lines 153-162) never throws and
    changes no array.  Of the console messages collected so far it lists
    those whose type is exactly "error", and no message of another type,
    numbered from 1 in the order of capture, each with its text; it prints
    the line "no console error" exactly when there is none. *)
Theorem console_errors_summary_lists_errors_only :
  forall st : state,
    let errors :=
      filter (fun log => String.eqb (ConsoleLog.type log) "error")
             (consoleLogs st) in
    exists ls,
      summarize_console_errors st =
        (Ok tt, absorb st (map (Print ConsoleLogStream) (LConsoleErrors :: ls))) /\
      (In LNoConsoleErrors ls <-> errors = []) /\
      error_headers ls = seq 1 (List.length errors) /\
      error_texts ls = map ConsoleLog.text errors /\
      (forall log, In log errors <->
                   In log (consoleLogs st) /\ ConsoleLog.type log = "error").
Proof.
  intros st. cbv zeta.
  set (errors := filter (fun log => String.eqb (ConsoleLog.type log) "error")
                        (consoleLogs st)).
  exists (match errors with
          | [] => [LNoConsoleErrors]
          | _ => each_lines console_error_lines errors
          end).
  split; [| split; [| split; [| split]]].
  - unfold summarize_console_errors, bind, console_log, get.
    rewrite emit_print_eq. cbv beta iota zeta.
    replace (consoleLogs (absorb st [Print ConsoleLogStream LConsoleErrors]))
      with (consoleLogs st) by (simpl; now rewrite app_nil_r).
    fold errors. rewrite nonempty_ltb. destruct errors as [| x xs] eqn:Ee.
    + now rewrite emit_print_eq, absorb_app.
    + rewrite (forEach_prints _ console_error_lines); [now rewrite absorb_app |].
      intros y i s. unfold console_error_lines.
      now rewrite !emit_print_eq, absorb_app.
  - destruct errors as [| x xs] eqn:Ee.
    + split; auto. intros _. now left.
    + split; [| discriminate]. intros H. apply each_lines_In in H.
      destruct H as (y & i & [H | [H | []]]); discriminate.
  - destruct errors as [| x xs] eqn:Ee; [reflexivity |]. rewrite <- Ee.
    unfold error_headers. rewrite (each_projection _ _ (fun _ i => [i + 1])).
    + apply (numbered_from_one errors 0).
    + reflexivity.
  - destruct errors as [| x xs] eqn:Ee; [reflexivity |]. rewrite <- Ee.
    unfold error_texts.
    rewrite (each_projection _ _ (fun y _ => [ConsoleLog.text y])).
    + rewrite (numbered_elements (fun y => [ConsoleLog.text y])).
      apply flat_map_singleton.
    + reflexivity.
  - intros log. unfold errors. rewrite filter_In, String.eqb_eq. reflexivity.
Qed.

(** X9.  The summary of page errors (lines 164-175) never throws and
    changes no array.  It lists every page error collected so far, numbered
    from 1 in the order of capture, each with its message; it prints a
    stack only for the errors whose stack is defined and not empty; and it
    prints the line "no page error" exactly when no error was collected. *)
Theorem page_errors_summary_lists_every_error :
  forall st : state,
    exists ls,
      summarize_page_errors st =
        (Ok tt, absorb st (map (Print ConsoleLogStream) (LPageErrors :: ls))) /\
      (In LNoPageErrors ls <-> pageErrors st = []) /\
      error_headers ls = seq 1 (List.length (pageErrors st)) /\
      error_texts ls = map PageError.message (pageErrors st) /\
      error_stacks ls = flat_map shown_stack (pageErrors st).
Proof.
  intros st.
  exists (match pageErrors st with
          | [] => [LNoPageErrors]
          | _ => each_lines page_error_lines (pageErrors st)
          end).
  split; [| split; [| split; [| split]]].
  - unfold summarize_page_errors, bind, console_log, get.
    rewrite emit_print_eq. cbv beta iota zeta.
    replace (pageErrors (absorb st [Print ConsoleLogStream LPageErrors]))
      with (pageErrors st) by (simpl; now rewrite app_nil_r).
    rewrite nonempty_ltb. destruct (pageErrors st) as [| x xs] eqn:Ee.
    + now rewrite emit_print_eq, absorb_app.
    + rewrite (forEach_prints _ page_error_lines); [now rewrite absorb_app |].
      intros y i s. unfold page_error_lines, ret.
      rewrite !emit_print_eq, !absorb_app.
      destruct (PageError.stack y) as [[| c t] |];
        now rewrite ?emit_print_eq, ?absorb_app.
  - destruct (pageErrors st) as [| x xs] eqn:Ee.
    + split; auto. intros _. now left.
    + split; [| discriminate]. intros H. apply each_lines_In in H.
      destruct H as (y & i & H). unfold page_error_lines in H.
      destruct (PageError.stack y) as [[| c t] |]; simpl in H;
        repeat (destruct H as [H | H]; try discriminate); contradiction.
  - destruct (pageErrors st) as [| x xs] eqn:Ee; [reflexivity |]. rewrite <- Ee.
    unfold error_headers. rewrite (each_projection _ _ (fun _ i => [i + 1])).
    + apply (numbered_from_one (pageErrors st) 0).
    + intros y i. unfold page_error_lines.
      now destruct (PageError.stack y) as [[| c t] |].
  - destruct (pageErrors st) as [| x xs] eqn:Ee; [reflexivity |]. rewrite <- Ee.
    unfold error_texts.
    rewrite (each_projection _ _ (fun y _ => [PageError.message y])).
    + rewrite (numbered_elements (fun y => [PageError.message y])).
      apply flat_map_singleton.
    + intros y i. unfold page_error_lines.
      now destruct (PageError.stack y) as [[| c t] |].
  - destruct (pageErrors st) as [| x xs] eqn:Ee; [reflexivity |]. rewrite <- Ee.
    unfold error_stacks.
    rewrite (each_projection _ _ (fun y _ => shown_stack y)).
    + apply (numbered_elements shown_stack).
    + intros y i. unfold page_error_lines, shown_stack.
      now destruct (PageError.stack y) as [[| c t] |].
Qed.

(* ------------------------------------------------------------------ *)
(** ** The three elements *)

Section Elements.

Lemma script_lines_prints (ls : list line) :
  forallb (fun l => negb (from_listener l)) ls = true ->
  script_lines (map (Print ConsoleLogStream) ls) = ls.
Proof.
  induction ls as [| l ls IH]; [reflexivity |]. simpl. intros H.
  apply andb_true_iff in H. destruct H as [Hl H].
  destruct (from_listener l); [discriminate |]. simpl. now rewrite IH.
Qed.






(** Lengths are counted in code units: one for a character of the basic
    plane, whatever its bytes, two for a supplementary character. *)
Lemma length_examples :
  Js.length "giscus" = 6 /\
  Js.length "评论" = 2 /\
  Js.length "😀" = 2 /\
  Js.length chinese_html = 334 /\
  Js.length (Js.substring_0 2 "a😀") = 2 /\
  Js.substring_0 3 "a😀b" = "a😀".
Proof. repeat split; vm_compute; reflexivity. Qed.

(** [toUpperCase] on type names of console messages. *)
Lemma toUpperCase_examples :
  Js.toUpperCase "error" = "ERROR" /\
  Js.toUpperCase "warning" = "WARNING" /\
  Js.toUpperCase "startGroupCollapsed" = "STARTGROUPCOLLAPSED".
Proof. repeat split. Qed.

End Elements.

(** X10.  When the script tag is found and both reads succeed, from any
    state: [check_script] returns the handle, makes exactly three calls (the
    query, the read of [src], the evaluation), and prints the [src] and
    then one line for each of the twelve attributes of lines 71-82, in
    that order, an attribute the element does not have being printed as
    [null]. *)
Theorem script_tag_attributes_listed_in_order :
  forall (w : world) (st : state) (h : elementHandle) (src : option string)
         (getAttribute : string -> option string),
    settled (w_queryScript w) = Ok (Some h) ->
    settled (w_scriptSrc w) = Ok src ->
    settled (w_scriptAttribute w) = Ok getAttribute ->
    exists tl,
      check_script w st = (Ok (Some h), absorb st tl) /\
      calls tl =
        [Query script_selector; GetAttribute ElScript "src"; Evaluate ElScript] /\
      script_lines tl =
        [LCheckScript; LScriptFound src; LAttributesHeader] ++
        map (fun key => LAttribute key (getAttribute key)) attribute_keys /\
      List.length attribute_keys = 12.
Proof.
  intros w st h src getAttribute Hq Hs Ha.
  unfold check_script, bind, console_log, ret.
  rewrite emit_print_eq, await_eq, Hq, absorb_app.
  rewrite await_eq, Hs, absorb_app, emit_print_eq, absorb_app.
  rewrite await_eq, Ha, absorb_app. cbv beta iota zeta.
  rewrite emit_print_eq, absorb_app, console_logs_eq, absorb_app.
  eexists. split; [reflexivity |]. split; [| split; [| reflexivity]].
  - rewrite ?calls_app. simpl. rewrite ?calls_app, ?calls_heard. reflexivity.
  - rewrite ?script_lines_app. simpl.
    rewrite ?script_lines_app, ?script_lines_heard. reflexivity.
Qed.

(** The run [w_happy] finds the script tag. *)
Lemma script_tag_attributes_listed_in_order_witness :
  exists tl,
    check_script w_happy initial = (Ok (Some (ElementHandle 1)), absorb initial tl) /\
    script_lines tl =
      [ LCheckScript; LScriptFound (Some "https://giscus.app/client.js");
        LAttributesHeader ] ++
      map (fun key => LAttribute key (giscus_attribute key)) attribute_keys.
Proof.
  destruct (script_tag_attributes_listed_in_order
              w_happy initial (ElementHandle 1)
              (Some "https://giscus.app/client.js") giscus_attribute
              eq_refl eq_refl eq_refl) as (tl & H1 & _ & H3 & _).
  exists tl. split; [exact H1 | exact H3].
Defined.

(** X11.  When the iframe is found and its [src] is [null] or empty,
    [check_iframe] does not throw: it returns the handle, prints the length
    0 and no warning. *)
Theorem iframe_without_src_has_length_zero :
  forall (w : world) (h : elementHandle) (src : option string),
    settled (w_queryIframe w) = Ok (Some h) ->
    settled (w_iframeSrc w) = Ok src ->
    src = None \/ src = Some "" ->
    fst (check_iframe w initial) = Ok (Some h) /\
    script_lines (trace (snd (check_iframe w initial))) =
      [LCheckIframe; LIframeFound; LIframeSrc src; LIframeSrcLength 0].
Proof.
  intros w h src Hq Hs Hsrc. split.
  - unfold check_iframe, bind, console_log, ret.
    rewrite emit_print_eq, await_eq, Hq, await_eq, Hs, !emit_print_eq.
    destruct Hsrc as [-> | ->]; reflexivity.
  - rewrite check_iframe_lines, Hq, Hs. destruct Hsrc as [-> | ->]; reflexivity.
Qed.

(** In the run [w_iframe_without_src] the attribute is missing. *)
Lemma iframe_without_src_has_length_zero_witness :
  fst (check_iframe w_iframe_without_src initial) = Ok (Some (ElementHandle 2)) /\
  script_lines (trace (snd (check_iframe w_iframe_without_src initial))) =
    [LCheckIframe; LIframeFound; LIframeSrc None; LIframeSrcLength 0].
Proof.
  apply (iframe_without_src_has_length_zero
           w_iframe_without_src (ElementHandle 2) None eq_refl eq_refl).
  now left.
Defined.


